(** * Rate limiter of the scraper ([rate_limiter.py])

    A shallow embedding of the [RateLimiter] class and the properties of
    its pacing, backoff and rotation policy.

    Conventions of the embedding:
    - Python floats and ints are exact rationals ([Q]); comparisons and
      arithmetic are the ideal ones.
    - the instance ([self]) is a record; the configuration is the
      dictionary [self.config], a finite map from keys to dynamically
      typed values;
    - the world outside the instance is explicit: the reading of
      [time.time()], the successive outputs of [random.random()] and the
      trace of calls to [time.sleep];
    - a method is a computation in a state-and-exception monad; the state
      survives a raised exception, as it does in Python;
    - the reentrant lock is held over every method body, so a method runs
      atomically and the lock has no counterpart here. *)

From Stdlib Require Import QArith Qminmax ZArith Lia Lqa.
From stdpp Require Import gmap strings list.

(** ** Values, exceptions, results *)

Inductive value : Type :=
| VNum (q : Q)
| VBool (b : bool)
| VStr (s : string).

Inductive exn : Type :=
| KeyError | TypeError | ValueError | IndexError | ZeroDivisionError.

Inductive result (A : Type) : Type :=
| Ok (a : A)
| Raise (e : exn).
Arguments Ok {A} a.
Arguments Raise {A} e.

(** A number where Python accepts one: [bool] is a subclass of [int],
    a string in arithmetic or in a comparison with a number is a
    [TypeError]. *)
Definition as_num (v : value) : result Q :=
  match v with
  | VNum q => Ok q
  | VBool b => Ok (if b then 1%Q else 0%Q)
  | VStr _ => Raise TypeError
  end.

(** Truth value of an object in a condition. *)
Definition truthy (v : value) : bool :=
  match v with
  | VNum q => negb (Qeq_bool q 0)
  | VBool b => b
  | VStr s => negb (String.eqb s "")
  end.

Definition Qltb (a b : Q) : bool := negb (Qle_bool b a).

(** ** The instance and its environment *)

Record RateLimiter : Type := mkRateLimiter {
  config : gmap string value;
  last_request_time : Q;
  request_times : list Q;          (* deque(maxlen=60), oldest first *)
  error_count : Z;
  current_backoff : value;
  user_agents : list string;
  current_user_agent_idx : Z;
  proxies : list string;
  current_proxy_idx : Z
}.

(** The three places of [wait_if_needed] that call [time.sleep]; each one
    logs its own message just before sleeping. *)
Inductive wait_step : Type := RpmWait | MinDelayWait | NoiseWait.

Record World : Type := mkWorld {
  clock : Q;                       (* what time.time() returns *)
  draws : nat -> Q;                (* outputs of random.random() *)
  cursor : nat;                    (* how many draws were consumed *)
  slept : list (wait_step * Q)     (* calls to time.sleep, oldest first *)
}.

Definition Env : Type := RateLimiter * World.

(** ** The monad of methods *)

Definition M (A : Type) : Type := Env -> result A * Env.

#[global] Instance M_ret : MRet M := fun A a e => (Ok a, e).

#[global] Instance M_bind : MBind M := fun A B f m e =>
  match m e with
  | (Ok a, e') => f a e'
  | (Raise x, e') => (Raise x, e')
  end.

Definition raise {A} (x : exn) : M A := fun e => (Raise x, e).

Definition lift {A} (r : result A) : M A := fun e => (r, e).

Definition get_self : M RateLimiter := fun e => (Ok (fst e), e).

Definition modify_self (f : RateLimiter -> RateLimiter) : M unit :=
  fun e => (Ok tt, (f (fst e), snd e)).

Definition when (b : bool) (m : M unit) : M unit := if b then m else mret tt.

(** Outcome, final instance and final world of a run. *)
Definition outcome {A} (r : result A * Env) : result A := fst r.
Definition self_of {A} (r : result A * Env) : RateLimiter := fst (snd r).
Definition world_of {A} (r : result A * Env) : World := snd (snd r).

(** *** Primitives of the environment *)

Definition time_time : M Q := fun e => (Ok (clock (snd e)), e).

(** [time.sleep(d)] raises [ValueError] on a negative duration; otherwise
    the call returns after [d] seconds of the clock. *)
Definition time_sleep (step : wait_step) (d : Q) : M unit :=
  fun e =>
    if Qltb d 0 then (Raise ValueError, e)
    else (Ok tt,
          (fst e,
           {| clock := (clock (snd e) + d)%Q;
              draws := draws (snd e);
              cursor := cursor (snd e);
              slept := slept (snd e) ++ [(step, d)] |})).

Definition random_random : M Q :=
  fun e => (Ok (draws (snd e) (cursor (snd e))),
            (fst e,
             {| clock := clock (snd e);
                draws := draws (snd e);
                cursor := S (cursor (snd e));
                slept := slept (snd e) |})).

(** [random.uniform(a, b)] is [a + (b - a) * random()]. *)
Definition random_uniform (a b : Q) : M Q :=
  x ← random_random;
  mret (a + (b - a) * x)%Q.

(** *** Reads of the dictionary and of sequences *)

(** [self.config[key]] *)
Definition cfg (key : string) : M value :=
  self ← get_self;
  match config self !! key with
  | Some v => mret v
  | None => raise KeyError
  end.

Definition cfg_num (key : string) : M Q :=
  v ← cfg key;
  lift (as_num v).

(** [l[i]] with Python's negative indices. *)
Definition py_index {A} (l : list A) (i : Z) : result A :=
  let n := Z.of_nat (length l) in
  let j := (if i <? 0 then n + i else i)%Z in
  if ((0 <=? j) && (j <? n))%Z
  then match l !! Z.to_nat j with
       | Some x => Ok x
       | None => Raise IndexError
       end
  else Raise IndexError.

(** [a % n] on integers. *)
Definition py_mod (a n : Z) : result Z :=
  if (n =? 0)%Z then Raise ZeroDivisionError else Ok (a mod n)%Z.

(** [min(l)] of a non-empty sequence: the first smallest element. *)
Definition min_list (t : Q) (ts : list Q) : Q := foldl Qmin t ts.

(** [sum(1 for t in request_times if t > minute_ago)] *)
Fixpoint count_recent (minute_ago : Q) (l : list Q) : nat :=
  match l with
  | [] => 0
  | t :: l' =>
      ((if Qltb minute_ago t then 1 else 0) + count_recent minute_ago l')%nat
  end.

(** [deque.append] on a deque with [maxlen]: the new element goes to the
    right and, when the bound is exceeded, the leftmost one is dropped. *)
Definition deque_append (maxlen : nat) (x : Q) (l : list Q) : list Q :=
  let l' := l ++ [x] in
  if (maxlen <? length l')%nat then drop 1 l' else l'.

(** [a * b] on numbers. A string operand is a [TypeError] here; Python
    repeats a string multiplied by an int, and the [min] that follows the
    product in [handle_rate_limit_error] then raises the same exception
    before anything is stored. *)
Definition py_mul (a b : value) : M value :=
  x ← lift (as_num a);
  y ← lift (as_num b);
  mret (VNum (x * y)%Q).

(** [min(a, b)]: [b] when [b < a], else [a]; the object itself is
    returned. *)
Definition py_min (a b : value) : M value :=
  y ← lift (as_num b);
  x ← lift (as_num a);
  mret (if Qltb y x then b else a).

(** ** The class *)

Definition set_config (c : gmap string value) (s : RateLimiter) :=
  mkRateLimiter c (last_request_time s) (request_times s) (error_count s)
    (current_backoff s) (user_agents s) (current_user_agent_idx s)
    (proxies s) (current_proxy_idx s).

Definition set_last_request_time (t : Q) (s : RateLimiter) :=
  mkRateLimiter (config s) t (request_times s) (error_count s)
    (current_backoff s) (user_agents s) (current_user_agent_idx s)
    (proxies s) (current_proxy_idx s).

Definition set_request_times (l : list Q) (s : RateLimiter) :=
  mkRateLimiter (config s) (last_request_time s) l (error_count s)
    (current_backoff s) (user_agents s) (current_user_agent_idx s)
    (proxies s) (current_proxy_idx s).

Definition set_error_count (n : Z) (s : RateLimiter) :=
  mkRateLimiter (config s) (last_request_time s) (request_times s) n
    (current_backoff s) (user_agents s) (current_user_agent_idx s)
    (proxies s) (current_proxy_idx s).

Definition set_current_backoff (v : value) (s : RateLimiter) :=
  mkRateLimiter (config s) (last_request_time s) (request_times s)
    (error_count s) v (user_agents s) (current_user_agent_idx s)
    (proxies s) (current_proxy_idx s).

Definition set_current_user_agent_idx (i : Z) (s : RateLimiter) :=
  mkRateLimiter (config s) (last_request_time s) (request_times s)
    (error_count s) (current_backoff s) (user_agents s) i
    (proxies s) (current_proxy_idx s).

Definition set_current_proxy_idx (i : Z) (s : RateLimiter) :=
  mkRateLimiter (config s) (last_request_time s) (request_times s)
    (error_count s) (current_backoff s) (user_agents s)
    (current_user_agent_idx s) (proxies s) i.

Definition default_config : gmap string value :=
  <["min_delay" := VNum 1]>
  (<["max_delay" := VNum 3]>
  (<["rpm_limit" := VNum 20]>
  (<["browser" := VStr "chrome"]>
  (<["headless" := VBool false]>
  (<["use_proxies" := VBool false]>
  (<["initial_backoff" := VNum 5]>
  (<["max_backoff" := VNum 300]>
  (<["backoff_factor" := VNum 2]> ∅)))))))).

Definition default_user_agents : list string :=
  [ "Mozilla/5.0 (Windows NT 10.0; Win64; x64) AppleWebKit/537.36 (KHTML, like Gecko) Chrome/91.0.4472.124 Safari/537.36";
    "Mozilla/5.0 (Macintosh; Intel Mac OS X 10_15_7) AppleWebKit/537.36 (KHTML, like Gecko) Chrome/91.0.4472.124 Safari/537.36";
    "Mozilla/5.0 (Windows NT 10.0; Win64; x64; rv:89.0) Gecko/20100101 Firefox/89.0";
    "Mozilla/5.0 (Macintosh; Intel Mac OS X 10_15_7) AppleWebKit/605.1.15 (KHTML, like Gecko) Version/14.1.1 Safari/605.1.15";
    "Mozilla/5.0 (Windows NT 10.0; Win64; x64) AppleWebKit/537.36 (KHTML, like Gecko) Chrome/91.0.4472.124 Safari/537.36 Edg/91.0.864.59";
    "Mozilla/5.0 (X11; Linux x86_64) AppleWebKit/537.36 (KHTML, like Gecko) Chrome/91.0.4472.124 Safari/537.36";
    "Mozilla/5.0 (iPhone; CPU iPhone OS 14_6 like Mac OS X) AppleWebKit/605.1.15 (KHTML, like Gecko) CriOS/91.0.4472.80 Mobile/15E148 Safari/604.1";
    "Mozilla/5.0 (iPad; CPU OS 14_6 like Mac OS X) AppleWebKit/605.1.15 (KHTML, like Gecko) CriOS/91.0.4472.80 Mobile/15E148 Safari/604.1";
    "Mozilla/5.0 (Linux; Android 11; SM-G991B) AppleWebKit/537.36 (KHTML, like Gecko) Chrome/91.0.4472.120 Mobile Safari/537.36";
    "Mozilla/5.0 (X11; Ubuntu; Linux x86_64; rv:89.0) Gecko/20100101 Firefox/89.0" ].

(** [__init__] *)
Definition init : RateLimiter :=
  {| config := default_config;
     last_request_time := 0;
     request_times := [];
     error_count := 0;
     current_backoff := VNum 5;
     user_agents := default_user_agents;
     current_user_agent_idx := 0;
     proxies := [];
     current_proxy_idx := 0 |}.

(** The loop of [configure] over [kwargs.items()]. *)
Definition configure_loop (items : list (string * value))
    (c : gmap string value) : gmap string value :=
  foldl (fun c kv =>
           if bool_decide (is_Some (c !! kv.1)) then <[kv.1 := kv.2]> c else c)
        c items.

Definition configure (kwargs : gmap string value) : M unit :=
  modify_self (fun s =>
    set_config (configure_loop (map_to_list kwargs) (config s)) s);;
  initial_backoff ← cfg "initial_backoff";
  modify_self (set_current_backoff initial_backoff);;
  modify_self (set_error_count 0).

Definition wait_if_needed : M unit :=
  current_time ← time_time;
  self ← get_self;
  let time_since_last := (current_time - last_request_time self)%Q in
  let minute_ago := (current_time - 60)%Q in
  let recent_requests := count_recent minute_ago (request_times self) in
  rpm_limit ← cfg_num "rpm_limit";
  when (Qle_bool rpm_limit (inject_Z (Z.of_nat recent_requests)))
    (let oldest_in_window :=
       match request_times self with
       | [] => minute_ago
       | t :: ts => min_list t ts
       end in
     let wait_time := (61 - (current_time - oldest_in_window))%Q in
     when (Qltb 0 wait_time) (time_sleep RpmWait wait_time));;
  min_delay ← cfg_num "min_delay";
  when (Qltb time_since_last min_delay)
    (min_delay ← cfg_num "min_delay";
     time_sleep MinDelayWait (min_delay - time_since_last)%Q);;
  r ← random_random;
  when (Qltb r (1#5))
    (min_delay ← cfg_num "min_delay";
     max_delay ← cfg_num "max_delay";
     random_delay ← random_uniform min_delay max_delay;
     time_sleep NoiseWait random_delay);;
  now ← time_time;
  modify_self (set_last_request_time now).

(** The debug message that ends [record_request] reads
    [self.config['rpm_limit']]. *)
Definition record_request : M unit :=
  now ← time_time;
  modify_self (fun s =>
    set_request_times (deque_append 60 now (request_times s)) s);;
  cfg "rpm_limit";;
  mret tt.

Definition _rotate_proxy : M unit :=
  self ← get_self;
  match proxies self with
  | [] => mret tt
  | _ :: _ =>
      i ← lift (py_mod (current_proxy_idx self + 1)
                       (Z.of_nat (length (proxies self))));
      modify_self (set_current_proxy_idx i)
  end.

Definition _rotate_user_agent : M unit :=
  self ← get_self;
  i ← lift (py_mod (current_user_agent_idx self + 1)
                   (Z.of_nat (length (user_agents self))));
  modify_self (set_current_user_agent_idx i).

Definition handle_rate_limit_error : M value :=
  modify_self (fun s => set_error_count (error_count s + 1) s);;
  self ← get_self;
  u ← random_uniform (- (1#5)) (1#5);
  jittered ← py_mul (current_backoff self) (VNum (1 + u));
  max_backoff ← cfg "max_backoff";
  backoff ← py_min jittered max_backoff;
  backoff_factor ← cfg "backoff_factor";
  escalated ← py_mul (current_backoff self) backoff_factor;
  max_backoff ← cfg "max_backoff";
  next ← py_min escalated max_backoff;
  modify_self (set_current_backoff next);;
  _rotate_user_agent;;
  use_proxies ← cfg "use_proxies";
  when (truthy use_proxies) _rotate_proxy;;
  mret backoff.

Definition get_backoff_time : M value :=
  self ← get_self;
  mret (current_backoff self).

Definition reset_error_count : M unit :=
  self ← get_self;
  when (0 <? error_count self)%Z
    (modify_self (set_error_count 0);;
     initial_backoff ← cfg "initial_backoff";
     modify_self (set_current_backoff initial_backoff)).

Definition get_proxy : M (option string) :=
  use_proxies ← cfg "use_proxies";
  self ← get_self;
  if negb (truthy use_proxies) || bool_decide (proxies self = [])
  then mret None
  else p ← lift (py_index (proxies self) (current_proxy_idx self));
       mret (Some p).

Definition get_user_agent : M string :=
  self ← get_self;
  lift (py_index (user_agents self) (current_user_agent_idx self)).

Record Stats : Type := mkStats {
  requests_last_minute : nat;
  stats_rpm_limit : value;
  stats_error_count : Z;
  stats_current_backoff : value;
  stats_last_request_time : Q;
  time_since_last : option Q
}.

Definition get_request_stats : M Stats :=
  current_time ← time_time;
  self ← get_self;
  let minute_ago := (current_time - 60)%Q in
  let recent_requests := count_recent minute_ago (request_times self) in
  rpm_limit ← cfg "rpm_limit";
  mret {| requests_last_minute := recent_requests;
          stats_rpm_limit := rpm_limit;
          stats_error_count := error_count self;
          stats_current_backoff := current_backoff self;
          stats_last_request_time := last_request_time self;
          time_since_last :=
            if negb (Qeq_bool (last_request_time self) 0)
            then Some (current_time - last_request_time self)%Q
            else None |}.

(** The tunables of the throttle among the keys of [self.config]. *)
Definition tunables : list string :=
  ["min_delay"; "max_delay"; "rpm_limit"; "initial_backoff"; "max_backoff";
   "backoff_factor"; "use_proxies"].

(** All the keys [__init__] puts in [self.config]: the tunables and the
    two browser settings. *)
Definition config_keys : list string := tunables ++ ["browser"; "headless"].

(** [configure] as the specification words it: a key outside the
    tunables is ignored, so its entry is left as it was. *)
Definition only_tunables_overwritten (s : RateLimiter) (w : World)
    (kwargs : gmap string value) : Prop :=
  forall k, k ∉ tunables ->
            config (fst (snd (configure kwargs (s, w)))) !! k = config s !! k.


(** ** Callers and observations *)

(** The caller invokes a method at the moment the clock reads [t]; from
    one call to the next the reading may move either way. *)
Definition at_time {A} (t : Q) (m : M A) : M A :=
  fun e => m (fst e,
              {| clock := t;
                 draws := draws (snd e);
                 cursor := cursor (snd e);
                 slept := slept (snd e) |}).

(** [record_request()] called once at each of the readings [ts]. *)
Fixpoint record_all (ts : list Q) : M unit :=
  match ts with
  | [] => mret tt
  | t :: ts' => at_time t record_request;; record_all ts'
  end.

(** [handle_rate_limit_error()] called [k] times in a row; the result is
    the list of the values stored in [current_backoff] after each call. *)
Fixpoint handle_times (k : nat) : M (list value) :=
  match k with
  | O => mret []
  | S k' =>
      handle_rate_limit_error;;
      self ← get_self;
      rest ← handle_times k';
      mret (current_backoff self :: rest)
  end.

(** The methods of the class, as a caller can invoke them. *)
Inductive op : Type :=
| Configure (kwargs : gmap string value)
| WaitIfNeeded
| RecordRequest
| HandleRateLimitError
| GetBackoffTime
| ResetErrorCount
| GetProxy
| RotateProxy
| GetUserAgent
| RotateUserAgent
| GetRequestStats.

Definition run_op (o : op) : M unit :=
  match o with
  | Configure kwargs => configure kwargs
  | WaitIfNeeded => wait_if_needed
  | RecordRequest => record_request
  | HandleRateLimitError => handle_rate_limit_error;; mret tt
  | GetBackoffTime => get_backoff_time;; mret tt
  | ResetErrorCount => reset_error_count
  | GetProxy => get_proxy;; mret tt
  | RotateProxy => _rotate_proxy
  | GetUserAgent => get_user_agent;; mret tt
  | RotateUserAgent => _rotate_user_agent
  | GetRequestStats => get_request_stats;; mret tt
  end.

(** The sleeps a run added to the trace of the world it started in. *)
Definition new_sleeps {A} (w : World) (r : result A * Env)
  : list (wait_step * Q) :=
  drop (length (slept w)) (slept (world_of r)).

Definition wait_step_eqb (a b : wait_step) : bool :=
  match a, b with
  | RpmWait, RpmWait | MinDelayWait, MinDelayWait | NoiseWait, NoiseWait => true
  | _, _ => false
  end.

(** The durations slept at one step. *)
Definition sleeps_at (step : wait_step) (evs : list (wait_step * Q)) : list Q :=
  snd <$> List.filter (fun ev => wait_step_eqb step (fst ev)) evs.

(** The time blocked by a list of sleeps. *)
Definition total_slept (evs : list (wait_step * Q)) : Q :=
  foldr (fun ev acc => (snd ev + acc)%Q) 0%Q evs.

(** ** Notions of the specification *)

#[global] Instance Qlt_decision (a b : Q) : Decision (a < b)%Q :=
  Z_lt_dec _ _.

(** A timestamp lies within the trailing 60 seconds of [now]. *)
Definition within_last_minute (now t : Q) : Prop := (now - t < 60)%Q.

#[global] Instance within_last_minute_decision (now t : Q) :
  Decision (within_last_minute now t) := Qlt_decision _ _.

(** The [n] newest entries of a log kept oldest first. *)
Definition newest (n : nat) (l : list Q) : list Q := drop (length l - n) l.

(** The oldest entry of the log that lies within the 60-second window,
    as the specification words it. *)
Definition oldest_within_window (now : Q) (l : list Q) : option Q :=
  match filter (within_last_minute now) l with
  | [] => None
  | t :: ts => Some (min_list t ts)
  end.

(** The RPM wait of the specification: 61 minus the age of that entry. *)
Definition rpm_wait_spec (now : Q) (l : list Q) : option Q :=
  (fun oldest => 61 - (now - oldest))%Q <$> oldest_within_window now l.

(** The min-delay step of the specification: the elapsed time since
    [last_request_time] is taken after the RPM wait; below [min_delay] the
    step sleeps for the difference, otherwise it does not sleep. *)
Definition min_delay_rechecked (s : RateLimiter) (w : World) (min_delay : Q)
  : Prop :=
  let evs := new_sleeps w (wait_if_needed (s, w)) in
  let elapsed :=
    (clock w + total_slept (List.filter (fun ev => wait_step_eqb RpmWait (fst ev)) evs)
     - last_request_time s)%Q in
  ((elapsed < min_delay)%Q ->
     exists d, sleeps_at MinDelayWait evs = [d] /\ (d == min_delay - elapsed)%Q)
  /\ ((min_delay <= elapsed)%Q -> sleeps_at MinDelayWait evs = []).


(** Successive stored backoffs: each one is the previous one times the
    factor, capped, and not below the previous one. *)
Fixpoint escalation_chain (factor cap a : Q) (qs : list Q) : Prop :=
  match qs with
  | [] => True
  | b :: qs' =>
      (b == Qmin (a * factor) cap)%Q /\ (a <= b)%Q /\ (b <= cap)%Q
      /\ escalation_chain factor cap b qs'
  end.

(** Both rotation indices point into their pools. *)
Definition indices_in_range (s : RateLimiter) : Prop :=
  (0 <= current_user_agent_idx s < Z.of_nat (length (user_agents s)))%Z
  /\ (proxies s <> [] ->
      (0 <= current_proxy_idx s < Z.of_nat (length (proxies s)))%Z).

(** A method relates the instance it starts from to the one it leaves,
    whatever its outcome. *)
Definition keeps (R : RateLimiter -> RateLimiter -> Prop) {A} (m : M A)
  : Prop :=
  forall e, R (fst e) (self_of (m e)).

(** The pools are left alone and indices that point into them still do. *)
Definition rotation_frame (s s' : RateLimiter) : Prop :=
  user_agents s' = user_agents s
  /\ proxies s' = proxies s
  /\ (indices_in_range s -> indices_in_range s').

(** ** Closed forms *)

(** The factor [1.0 + random.uniform(-0.2, 0.2)] for the draw [x]. *)
Definition jitter_factor (x : Q) : Q :=
  (1 + (- (1#5) + ((1#5) - - (1#5)) * x))%Q.

(** The instance after the rotation of the proxy, when it is enabled. *)
Definition proxy_rotated (use_proxies : value) (s : RateLimiter) : RateLimiter :=
  if truthy use_proxies then
    match proxies s with
    | [] => s
    | _ :: _ =>
        set_current_proxy_idx
          ((current_proxy_idx s + 1) mod Z.of_nat (length (proxies s)))%Z s
    end
  else s.

(** The instance [handle_rate_limit_error] leaves, for a numeric
    [current_backoff] [c], a cap stored as [cap] with number [m], a factor
    [f] and the flag [use_proxies]. *)
Definition after_rate_limit_error (c : Q) (cap : value) (m f : Q)
    (use_proxies : value) (s : RateLimiter) : RateLimiter :=
  proxy_rotated use_proxies
    (set_current_user_agent_idx
       ((current_user_agent_idx s + 1)
          mod Z.of_nat (length (user_agents s)))%Z
       (set_current_backoff (if Qltb m (c * f) then cap else VNum (c * f)%Q)
          (set_error_count (error_count s + 1)%Z s))).

Definition draw_consumed (w : World) : World :=
  {| clock := clock w; draws := draws w; cursor := S (cursor w);
     slept := slept w |}.

(** The configuration entries [handle_rate_limit_error] reads are present
    and numeric, and the identity pool is not empty. *)
Definition backoff_configured (s : RateLimiter) (cap : value) (m : Q)
    (factor : value) (f : Q) (use_proxies : value) : Prop :=
  config s !! "max_backoff" = Some cap
  /\ as_num cap = Ok m
  /\ config s !! "backoff_factor" = Some factor
  /\ as_num factor = Ok f
  /\ config s !! "use_proxies" = Some use_proxies
  /\ user_agents s <> [].

(** The sleeps of the three steps of [wait_if_needed] at the reading
    [now], for the numbers [rl], [md] and [xd] stored under [rpm_limit],
    [min_delay] and [max_delay]. *)
Definition rpm_sleeps (s : RateLimiter) (now rl : Q) : list (wait_step * Q) :=
  if Qle_bool rl
       (inject_Z (Z.of_nat (count_recent (now - 60) (request_times s))))
  then
    let oldest_in_window :=
      match request_times s with
      | [] => (now - 60)%Q
      | t :: ts => min_list t ts
      end in
    let wait_time := (61 - (now - oldest_in_window))%Q in
    if Qltb 0 wait_time then [(RpmWait, wait_time)] else []
  else [].

Definition min_delay_sleeps (s : RateLimiter) (now md : Q)
  : list (wait_step * Q) :=
  if Qltb (now - last_request_time s) md
  then [(MinDelayWait, (md - (now - last_request_time s))%Q)]
  else [].

Definition noise_sleeps (w : World) (md xd : Q) : list (wait_step * Q) :=
  if Qltb (draws w (cursor w)) (1#5)
  then [(NoiseWait, (md + (xd - md) * draws w (S (cursor w)))%Q)]
  else [].

Definition wait_sleeps (s : RateLimiter) (w : World) (rl md xd : Q)
  : list (wait_step * Q) :=
  rpm_sleeps s (clock w) rl ++ min_delay_sleeps s (clock w) md
    ++ noise_sleeps w md xd.

(** ** Concrete instances and worlds *)

(** A world that reads [t] on the clock, has slept nothing yet and whose
    random draws are all one half (no noise delay, no jitter). *)
Definition quiet_world (t : Q) : World :=
  {| clock := t; draws := fun _ => 1#2; cursor := 0; slept := [] |}.

(** A limiter with [rpm_limit = 2] whose log holds one entry older than a
    minute and two recent ones; the last paced request was at 1101. *)
Definition stale_log_limiter : RateLimiter :=
  set_request_times [1000%Q; 1100%Q; 1101%Q]
    (set_last_request_time 1101
       (set_config (<["rpm_limit" := VNum 2]> default_config) init)).

(** The calls that lead to it: [configure(rpm_limit=2)], then
    [wait_if_needed()] and [record_request()] at each of three readings. *)
Definition stale_log_scenario : M unit :=
  configure {["rpm_limit" := VNum 2]};;
  at_time 1000 (wait_if_needed;; record_request);;
  at_time 1100 (wait_if_needed;; record_request);;
  at_time 1101 (wait_if_needed;; record_request).

(** A limiter with [rpm_limit = 1] and [min_delay = 1] whose single logged
    request and last paced request were both at 100; it is called at
    100.5. *)
Definition recheck_limiter : RateLimiter :=
  set_request_times [100%Q]
    (set_last_request_time 100
       (set_config (<["rpm_limit" := VNum 1]> default_config) init)).


Definition noisy_world (t : Q) : World :=
  {| clock := t; draws := fun _ => 1#10; cursor := 0; slept := [] |}.

(** The reading [last_request_time] is left alone. *)
Definition same_last_request_time (s s' : RateLimiter) : Prop :=
  last_request_time s' = last_request_time s.

(** ** Further notions: conditions kept by a method *)

(** From an environment that satisfies [P], the method leaves one that
    satisfies [Q], and an exception it raises satisfies [X]. *)
Definition hoare (P : Env -> Prop) {A} (m : M A) (Q : Env -> Prop)
    (X : exn -> Prop) : Prop :=
  forall e, P e ->
            Q (snd (m e)) /\ (forall x, fst (m e) = Raise x -> X x).

(** [f] to the power [k]. *)
Fixpoint qpow (f : Q) (k : nat) : Q :=
  match k with
  | O => 1%Q
  | S k' => (f * qpow f k')%Q
  end.

(** The escalation state is coherent: [initial_backoff] is configured,
    [error_count] is not negative, and while it is 0 [current_backoff] is
    the configured [initial_backoff]. *)
Definition backoff_state_ok (s : RateLimiter) : Prop :=
  is_Some (config s !! "initial_backoff")
  /\ (0 <= error_count s)%Z
  /\ (error_count s = 0%Z ->
      config s !! "initial_backoff" = Some (current_backoff s)).

(** Every tunable has an entry in [self.config]. *)
Definition has_tunables (s : RateLimiter) : Prop :=
  forall k, k ∈ tunables -> is_Some (config s !! k).

(** The world after a call to [time.sleep]. *)
Definition world_slept (step : wait_step) (d : Q) (w : World) : World :=
  {| clock := (clock w + d)%Q; draws := draws w; cursor := cursor w;
     slept := slept w ++ [(step, d)] |}.

(** Limiters with a configuration the application would reject: a limit
    of 0, negative delays, a text as [max_backoff]. *)
Definition zero_limit_limiter : RateLimiter :=
  set_config (<["rpm_limit" := VNum 0]> default_config) init.

Definition negative_delay_limiter : RateLimiter :=
  set_config
    (<["min_delay" := VNum (-3)]> (<["max_delay" := VNum (-1)]> default_config))
    init.

Definition text_cap_limiter : RateLimiter :=
  set_config (<["max_backoff" := VStr "high"]> default_config) init.

(** ** Reasoning about runs *)

Ltac unfold_monad :=
  unfold mbind, M_bind, mret, M_ret, raise, lift, get_self, modify_self,
    time_time, outcome, self_of, world_of in *.

Lemma Qltb_lt (a b : Q) : Qltb a b = true <-> (a < b)%Q.
Proof.
  unfold Qltb. rewrite negb_true_iff. split.
  - intros H. apply Qnot_le_lt. intros Hle.
    apply Qle_bool_iff in Hle. congruence.
  - intros H. destruct (Qle_bool b a) eqn:E; [|reflexivity].
    apply Qle_bool_iff in E. exfalso. apply (Qlt_not_le _ _ H E).
Qed.

Lemma Qltb_ge (a b : Q) : Qltb a b = false <-> (b <= a)%Q.
Proof.
  unfold Qltb. rewrite negb_false_iff. apply Qle_bool_iff.
Qed.

(** ** [configure] *)

Lemma configure_loop_items (items : list (string * value)) :
  NoDup items.*1 ->
  forall (c : gmap string value) (k : string),
    configure_loop items c !! k =
    match c !! k with
    | Some old =>
        Some (default old ((list_to_map items : gmap string value) !! k))
    | None => None
    end.
Proof.
  unfold configure_loop.
  induction items as [|[k' v] items IH]; intros Hnd c k; simpl.
  - rewrite lookup_empty. by destruct (c !! k).
  - inversion Hnd as [|? ? Hnotin Hnd']; subst.
    rewrite IH by done. clear IH.
    destruct (decide (k' = k)) as [->|Hne].
    + rewrite lookup_insert_eq.
      rewrite (not_elem_of_list_to_map_1 (M:=gmap string) _ k Hnotin).
      case_bool_decide as Hin.
      * rewrite lookup_insert_eq. destruct Hin as [old ->]. done.
      * apply eq_None_not_Some in Hin. by rewrite Hin.
    + rewrite (lookup_insert_ne _ k' k) by done.
      case_bool_decide; [by rewrite lookup_insert_ne|done].
Qed.

(** Every key of the dictionary holds the supplied value when one is
    supplied and its previous value otherwise; no key is added. *)
Lemma configure_loop_lookup (kwargs c : gmap string value) (k : string) :
  configure_loop (map_to_list kwargs) c !! k =
  match c !! k with
  | Some old => Some (default old (kwargs !! k))
  | None => None
  end.
Proof.
  rewrite configure_loop_items by apply NoDup_fst_map_to_list.
  by rewrite list_to_map_to_list.
Qed.

Lemma configure_run (s : RateLimiter) (w : World)
    (kwargs : gmap string value) (ib : value) :
  configure_loop (map_to_list kwargs) (config s) !! "initial_backoff"
    = Some ib ->
  configure kwargs (s, w) =
  (Ok tt,
   (set_error_count 0
      (set_current_backoff ib
         (set_config (configure_loop (map_to_list kwargs) (config s)) s)),
    w)).
Proof.
  intros H. unfold configure, cfg. unfold_monad. simpl.
  rewrite H. reflexivity.
Qed.

(** C5, as the code has it. On an instance whose dictionary has the keys
    of [__init__] (the seven tunables, [browser] and [headless]), a call
    to [configure] with any keyword arguments returns normally and: each
    of these keys that is supplied holds the supplied value, every key
    that is not supplied keeps its previous value, a key outside them is
    ignored and not added, so the key set stays the same;
    [current_backoff] is the (possibly new) [initial_backoff],
    [error_count] is 0, and nothing else of the instance or of the world
    changes. *)
Theorem configure_overwrites_config_keys (s : RateLimiter) (w : World)
    (kwargs : gmap string value) :
  (forall k, is_Some (config s !! k) <-> k ∈ config_keys) ->
  let r := configure kwargs (s, w) in
  outcome r = Ok tt
  /\ (forall k v, k ∈ config_keys -> kwargs !! k = Some v ->
        config (self_of r) !! k = Some v)
  /\ (forall k, kwargs !! k = None ->
        config (self_of r) !! k = config s !! k)
  /\ (forall k, k ∉ config_keys -> config (self_of r) !! k = None)
  /\ (forall k, is_Some (config (self_of r) !! k) <-> k ∈ config_keys)
  /\ config (self_of r) !! "initial_backoff"
       = Some (current_backoff (self_of r))
  /\ error_count (self_of r) = 0%Z
  /\ last_request_time (self_of r) = last_request_time s
  /\ request_times (self_of r) = request_times s
  /\ user_agents (self_of r) = user_agents s
  /\ current_user_agent_idx (self_of r) = current_user_agent_idx s
  /\ proxies (self_of r) = proxies s
  /\ current_proxy_idx (self_of r) = current_proxy_idx s
  /\ world_of r = w.
Proof.
  intros Hdom r.
  assert (Hib : is_Some (configure_loop (map_to_list kwargs) (config s)
                           !! "initial_backoff")).
  { rewrite configure_loop_lookup.
    destruct (proj2 (Hdom "initial_backoff")) as [old ->]; [|by eexists].
    unfold config_keys, tunables. simpl. rewrite !elem_of_cons. auto 10. }
  destruct Hib as [ib Hib].
  subst r. rewrite (configure_run s w kwargs ib Hib).
  unfold outcome, self_of, world_of. simpl.
  repeat split; try done.
  - intros k v Hk Hv. rewrite configure_loop_lookup.
    destruct (proj2 (Hdom k) Hk) as [old ->]. by rewrite Hv.
  - intros k Hk. rewrite configure_loop_lookup, Hk.
    by destruct (config s !! k).
  - intros k Hk. rewrite configure_loop_lookup.
    destruct (config s !! k) as [old|] eqn:E; [|done].
    destruct Hk. apply Hdom. by eexists.
  - intros [v Hv]. apply Hdom. rewrite configure_loop_lookup in Hv.
    destruct (config s !! k); [by eexists|done].
  - intros Hk. rewrite configure_loop_lookup.
    destruct (proj2 (Hdom k) Hk) as [old ->]. by eexists.
Qed.

Lemma init_config_keys (k : string) :
  is_Some (config init !! k) <-> k ∈ config_keys.
Proof.
  rewrite <- elem_of_dom. unfold init, default_config. simpl.
  rewrite !dom_insert_L, dom_empty_L.
  unfold config_keys, tunables. simpl.
  rewrite !elem_of_union, !elem_of_singleton, !elem_of_cons, elem_of_nil,
    elem_of_empty.
  tauto.
Qed.

(** C5, as the specification words it, fails: [browser] is not one of the
    seven tunables, yet [configure(browser="firefox")] overwrites its
    entry. *)
Lemma configure_overwrites_browser :
  ("browser" ∉ tunables)
  /\ config init !! "browser" = Some (VStr "chrome")
  /\ config (self_of (configure {["browser" := VStr "firefox"]}
                         (init, quiet_world 0))) !! "browser"
     = Some (VStr "firefox")
  /\ ~ only_tunables_overwritten init (quiet_world 0)
        {["browser" := VStr "firefox"]}.
Proof.
  assert (Hout : "browser" ∉ tunables).
  { unfold tunables. intros H.
    repeat (apply elem_of_cons in H as [H|H]; [discriminate H|]).
    by apply elem_of_nil in H. }
  split; [exact Hout|]. split; [reflexivity|].
  split; [vm_compute; reflexivity|].
  intros H. specialize (H "browser" Hout).
  vm_compute in H. discriminate H.
Qed.

(** ** [record_request] and the request log *)

Lemma count_recent_filter (now : Q) (l : list Q) :
  count_recent (now - 60) l = length (filter (within_last_minute now) l).
Proof.
  induction l as [|t l IH]; [reflexivity|].
  simpl. rewrite filter_cons, IH.
  destruct (Qltb (now - 60) t) eqn:E.
  - apply Qltb_lt in E.
    rewrite decide_True; [reflexivity|]. unfold within_last_minute. lra.
  - apply Qltb_ge in E.
    rewrite decide_False; [reflexivity|]. unfold within_last_minute. lra.
Qed.

Lemma newest_length (n : nat) (l : list Q) : (length (newest n l) <= n)%nat.
Proof. unfold newest. rewrite length_drop. lia. Qed.

Lemma newest_short (n : nat) (l : list Q) :
  (length l <= n)%nat -> newest n l = l.
Proof.
  intros H. unfold newest. replace (length l - n)%nat with 0%nat by lia.
  reflexivity.
Qed.

Lemma newest_app (n : nat) (a b : list Q) :
  newest n (newest n a ++ b) = newest n (a ++ b).
Proof.
  unfold newest.
  rewrite <- (drop_app_le a b (length a - n)) by lia.
  rewrite drop_drop. f_equal.
  rewrite length_drop, !length_app. lia.
Qed.

Lemma deque_append_newest (n : nat) (x : Q) (l : list Q) :
  (length l <= n)%nat -> deque_append n x l = newest n (l ++ [x]).
Proof.
  intros H. unfold deque_append, newest.
  rewrite length_app. simpl.
  destruct (n <? length l + 1)%nat eqn:E.
  - apply Nat.ltb_lt in E. f_equal. lia.
  - apply Nat.ltb_ge in E.
    replace (length l + 1 - n)%nat with 0%nat by lia. reflexivity.
Qed.

Lemma record_all_log (ts : list Q) :
  forall (s : RateLimiter) (w : World),
    (length (request_times s) <= 60)%nat ->
    is_Some (config s !! "rpm_limit") ->
    let r := record_all ts (s, w) in
    outcome r = Ok tt
    /\ request_times (self_of r) = newest 60 (request_times s ++ ts)
    /\ config (self_of r) = config s.
Proof.
  induction ts as [|t ts IH]; intros s w Hlen [rl Hrl]; simpl.
  - unfold_monad. simpl. rewrite app_nil_r, newest_short by done. done.
  - unfold at_time, record_request, cfg. unfold_monad. cbn.
    rewrite Hrl. cbn.
    set (s1 := set_request_times (deque_append 60 t (request_times s)) s).
    set (w1 := {| clock := t; draws := draws w; cursor := cursor w;
                  slept := slept w |}).
    assert (Hs1 : request_times s1 = newest 60 (request_times s ++ [t])).
    { subst s1. simpl. by apply deque_append_newest. }
    assert (Hlen1 : (length (request_times s1) <= 60)%nat).
    { rewrite Hs1. apply newest_length. }
    assert (Hrl1 : is_Some (config s1 !! "rpm_limit")) by (by eexists).
    destruct (IH s1 w1 Hlen1 Hrl1) as (Hok & Hlog & Hcfg).
    unfold_monad. rewrite Hok, Hlog, Hcfg, Hs1.
    split; [done|]. split; [|done].
    rewrite newest_app, <- app_assoc. reflexivity.
Qed.

(** C6. After any sequence of [record_request()] calls, made at any clock
    readings, the log holds the (at most 60) newest of all the timestamps
    it was given, so the oldest ones are the ones dropped, and
    [get_request_stats] at a reading [now] reports as
    [requests_last_minute] the number of stored timestamps less than 60
    seconds before [now]. *)
Theorem request_log_window_count (s : RateLimiter) (w : World)
    (ts : list Q) (now : Q) :
  (length (request_times s) <= 60)%nat ->
  is_Some (config s !! "rpm_limit") ->
  let r := record_all ts (s, w) in
  let log := request_times (self_of r) in
  outcome r = Ok tt
  /\ (length log <= 60)%nat
  /\ log = newest 60 (request_times s ++ ts)
  /\ exists st,
       outcome (at_time now get_request_stats (self_of r, world_of r)) = Ok st
       /\ requests_last_minute st
          = length (filter (within_last_minute now) log).
Proof.
  intros Hlen [rl Hrl] r log.
  destruct (record_all_log ts s w Hlen (ex_intro _ rl Hrl))
    as (Hok & Hlog & Hcfg).
  fold r in Hok, Hlog, Hcfg. subst log.
  split; [done|]. split; [rewrite Hlog; apply newest_length|].
  split; [done|].
  unfold at_time, get_request_stats, cfg. unfold_monad. simpl.
  rewrite Hcfg, Hrl. simpl.
  eexists. split; [reflexivity|]. simpl.
  apply count_recent_filter.
Qed.

(** ** What a method leaves alone *)

Section Keeps.
Variable R : RateLimiter -> RateLimiter -> Prop.
Hypothesis R_refl : forall s, R s s.
Hypothesis R_trans : forall a b c, R a b -> R b c -> R a c.

Lemma keeps_ret {A} (a : A) : keeps R (mret a).
Proof. intros e. apply R_refl. Qed.

Lemma keeps_raise {A} (x : exn) : keeps R (raise x : M A).
Proof. intros e. apply R_refl. Qed.

Lemma keeps_lift {A} (r : result A) : keeps R (lift r).
Proof. intros e. apply R_refl. Qed.

Lemma keeps_get_self : keeps R get_self.
Proof. intros e. apply R_refl. Qed.

Lemma keeps_time_time : keeps R time_time.
Proof. intros e. apply R_refl. Qed.

Lemma keeps_random_random : keeps R random_random.
Proof. intros e. apply R_refl. Qed.

Lemma keeps_time_sleep (step : wait_step) (d : Q) :
  keeps R (time_sleep step d).
Proof.
  intros e. unfold time_sleep, self_of.
  destruct (Qltb d 0); apply R_refl.
Qed.

Lemma keeps_bind {A B} (m : M A) (f : A -> M B) :
  keeps R m -> (forall a, keeps R (f a)) -> keeps R (m ≫= f).
Proof.
  intros Hm Hf e. unfold mbind, M_bind, self_of.
  specialize (Hm e). unfold self_of in Hm.
  destruct (m e) as [[a|x] e1]; simpl in *; [|exact Hm].
  eapply R_trans; [exact Hm|]. apply (Hf a e1).
Qed.

Lemma keeps_when (b : bool) (m : M unit) : keeps R m -> keeps R (when b m).
Proof. intros Hm. destruct b; [exact Hm|apply keeps_ret]. Qed.

Lemma keeps_modify_self (f : RateLimiter -> RateLimiter) :
  (forall s, R s (f s)) -> keeps R (modify_self f).
Proof. intros Hf e. apply Hf. Qed.

Lemma keeps_cfg (key : string) : keeps R (cfg key).
Proof.
  unfold cfg. apply keeps_bind; [apply keeps_get_self|].
  intros self. destruct (config self !! key);
    [apply keeps_ret|apply keeps_raise].
Qed.

Lemma keeps_cfg_num (key : string) : keeps R (cfg_num key).
Proof.
  unfold cfg_num. apply keeps_bind; [apply keeps_cfg|].
  intros v. apply keeps_lift.
Qed.

Lemma keeps_random_uniform (a b : Q) : keeps R (random_uniform a b).
Proof.
  unfold random_uniform. apply keeps_bind; [apply keeps_random_random|].
  intros x. apply keeps_ret.
Qed.

Lemma keeps_py_mul (a b : value) : keeps R (py_mul a b).
Proof.
  unfold py_mul. repeat (apply keeps_bind; [apply keeps_lift|intros ?]).
  apply keeps_ret.
Qed.

Lemma keeps_py_min (a b : value) : keeps R (py_min a b).
Proof.
  unfold py_min. repeat (apply keeps_bind; [apply keeps_lift|intros ?]).
  apply keeps_ret.
Qed.

Hypothesis R_config : forall c s, R s (set_config c s).
Hypothesis R_last_request_time : forall t s, R s (set_last_request_time t s).
Hypothesis R_request_times : forall l s, R s (set_request_times l s).
Hypothesis R_error_count : forall n s, R s (set_error_count n s).
Hypothesis R_current_backoff : forall v s, R s (set_current_backoff v s).
Hypothesis R_rotate_user_agent : keeps R _rotate_user_agent.
Hypothesis R_rotate_proxy : keeps R _rotate_proxy.

Ltac keeps_auto :=
  repeat first
    [ exact R_rotate_user_agent | exact R_rotate_proxy
    | apply keeps_ret | apply keeps_raise | apply keeps_lift
    | apply keeps_get_self | apply keeps_time_time
    | apply keeps_random_random | apply keeps_time_sleep
    | apply keeps_cfg_num | apply keeps_cfg | apply keeps_random_uniform
    | apply keeps_py_mul | apply keeps_py_min
    | apply keeps_when
    | apply keeps_modify_self; intros ?; solve
        [ apply R_config | apply R_last_request_time
        | apply R_request_times | apply R_error_count
        | apply R_current_backoff ]
    | apply keeps_bind; [|intros ?] ].

Lemma keeps_configure (kwargs : gmap string value) :
  keeps R (configure kwargs).
Proof. unfold configure. keeps_auto. Qed.

Lemma keeps_wait_if_needed : keeps R wait_if_needed.
Proof. unfold wait_if_needed. keeps_auto. Qed.

Lemma keeps_record_request : keeps R record_request.
Proof. unfold record_request. keeps_auto. Qed.

Lemma keeps_handle_rate_limit_error : keeps R handle_rate_limit_error.
Proof.
  unfold handle_rate_limit_error. keeps_auto.
Qed.

Lemma keeps_get_backoff_time : keeps R get_backoff_time.
Proof. unfold get_backoff_time. keeps_auto. Qed.

Lemma keeps_reset_error_count : keeps R reset_error_count.
Proof. unfold reset_error_count. keeps_auto. Qed.

Lemma keeps_get_proxy : keeps R get_proxy.
Proof.
  unfold get_proxy. keeps_auto.
  match goal with |- keeps R (if ?b then _ else _) => destruct b end;
    keeps_auto.
Qed.

Lemma keeps_get_user_agent : keeps R get_user_agent.
Proof. unfold get_user_agent. keeps_auto. Qed.

Lemma keeps_get_request_stats : keeps R get_request_stats.
Proof. unfold get_request_stats. keeps_auto. Qed.

Lemma keeps_run_op (o : op) : keeps R (run_op o).
Proof.
  destruct o; simpl;
    [ apply keeps_configure | apply keeps_wait_if_needed
    | apply keeps_record_request
    | apply keeps_bind; [apply keeps_handle_rate_limit_error|intros; apply keeps_ret]
    | apply keeps_bind; [apply keeps_get_backoff_time|intros; apply keeps_ret]
    | apply keeps_reset_error_count
    | apply keeps_bind; [apply keeps_get_proxy|intros; apply keeps_ret]
    | apply R_rotate_proxy
    | apply keeps_bind; [apply keeps_get_user_agent|intros; apply keeps_ret]
    | apply R_rotate_user_agent
    | apply keeps_bind; [apply keeps_get_request_stats|intros; apply keeps_ret] ].
Qed.
End Keeps.

(** ** Rotation indices *)

Lemma rotation_frame_refl (s : RateLimiter) : rotation_frame s s.
Proof. unfold rotation_frame. auto. Qed.

Lemma rotation_frame_trans (a b c : RateLimiter) :
  rotation_frame a b -> rotation_frame b c -> rotation_frame a c.
Proof.
  unfold rotation_frame. intros (Hu1 & Hp1 & Hi1) (Hu2 & Hp2 & Hi2).
  split; [congruence|]. split; [congruence|auto].
Qed.

Lemma rotation_frame_rotate_user_agent :
  keeps rotation_frame _rotate_user_agent.
Proof.
  intros [s w]. unfold _rotate_user_agent, py_mod. unfold_monad. simpl.
  destruct (Z.of_nat (length (user_agents s)) =? 0)%Z eqn:E; simpl;
    [apply rotation_frame_refl|].
  apply Z.eqb_neq in E.
  unfold rotation_frame, indices_in_range. simpl.
  split; [reflexivity|]. split; [reflexivity|].
  intros [_ Hp]. split; [apply Z.mod_pos_bound; lia|exact Hp].
Qed.

Lemma rotation_frame_rotate_proxy : keeps rotation_frame _rotate_proxy.
Proof.
  intros [s w]. unfold _rotate_proxy, py_mod. unfold_monad. simpl.
  destruct (proxies s) as [|p ps] eqn:Hp; simpl;
    [apply rotation_frame_refl|].
  unfold rotation_frame, indices_in_range. simpl. rewrite Hp. simpl.
  split; [reflexivity|]. split; [reflexivity|].
  intros [Hu _]. split; [exact Hu|].
  intros _. apply Z.mod_pos_bound; lia.
Qed.

Lemma rotation_frame_run_op (o : op) : keeps rotation_frame (run_op o).
Proof.
  apply keeps_run_op;
    [ apply rotation_frame_refl | apply rotation_frame_trans
    | intros; unfold rotation_frame, indices_in_range; simpl; tauto ..
    | apply rotation_frame_rotate_user_agent
    | apply rotation_frame_rotate_proxy ].
Qed.

Lemma init_indices_in_range : indices_in_range init.
Proof. unfold indices_in_range. simpl. split; [lia|done]. Qed.

Lemma py_index_in_range {A} (l : list A) (i : Z) :
  (0 <= i < Z.of_nat (length l))%Z ->
  exists x, py_index l i = Ok x /\ l !! Z.to_nat i = Some x.
Proof.
  intros Hi. unfold py_index.
  destruct (i <? 0)%Z eqn:E; [apply Z.ltb_lt in E; lia|].
  replace ((0 <=? i)%Z && (i <? Z.of_nat (length l))%Z) with true
    by (symmetry; apply andb_true_iff; split;
        [apply Z.leb_le|apply Z.ltb_lt]; lia).
  destruct (lookup_lt_is_Some_2 l (Z.to_nat i)) as [x Hx]; [lia|].
  exists x. by rewrite Hx.
Qed.

(** C10. From an instance whose indices point into their pools, every
    method leaves the pools as they are and the indices in range;
    [get_user_agent] returns the entry at the identity index,
    [_rotate_proxy] with an empty proxy pool leaves the proxy index alone,
    [get_proxy] returns [None] when [use_proxies] is false or the pool is
    empty, and the proxy at the proxy index otherwise. *)
Theorem rotation_indices_in_range (s : RateLimiter) (w : World) :
  indices_in_range s ->
  (forall o : op,
      indices_in_range (self_of (run_op o (s, w)))
      /\ user_agents (self_of (run_op o (s, w))) = user_agents s
      /\ proxies (self_of (run_op o (s, w))) = proxies s)
  /\ (exists ua,
        outcome (get_user_agent (s, w)) = Ok ua
        /\ user_agents s !! Z.to_nat (current_user_agent_idx s) = Some ua)
  /\ (proxies s = [] ->
        current_proxy_idx (self_of (_rotate_proxy (s, w)))
        = current_proxy_idx s)
  /\ (forall up, config s !! "use_proxies" = Some up ->
        (truthy up = false \/ proxies s = [] ->
           outcome (get_proxy (s, w)) = Ok None)
        /\ (truthy up = true -> proxies s <> [] ->
              exists p,
                outcome (get_proxy (s, w)) = Ok (Some p)
                /\ proxies s !! Z.to_nat (current_proxy_idx s) = Some p)).
Proof.
  intros Hinv. split; [|split; [|split]].
  - intros o. destruct (rotation_frame_run_op o (s, w)) as (Hu & Hp & Hi).
    simpl in Hi. auto.
  - destruct Hinv as [Hua _].
    destruct (py_index_in_range (user_agents s) _ Hua) as (ua & Hok & Hl).
    exists ua. split; [|done].
    unfold get_user_agent. unfold_monad. simpl. by rewrite Hok.
  - intros Hp. unfold _rotate_proxy. unfold_monad. simpl. by rewrite Hp.
  - intros up Hup. split.
    + intros Hoff. unfold get_proxy, cfg. unfold_monad. simpl.
      rewrite Hup. simpl.
      destruct Hoff as [-> | ->]; [reflexivity|].
      rewrite bool_decide_eq_true_2 by done.
      by rewrite orb_true_r.
    + intros Hon Hne. destruct Hinv as [_ Hpx].
      destruct (py_index_in_range (proxies s) _ (Hpx Hne)) as (p & Hok & Hl).
      exists p. split; [|done].
      unfold get_proxy, cfg. unfold_monad. simpl.
      rewrite Hup. simpl. rewrite Hon.
      rewrite bool_decide_eq_false_2 by done. simpl.
      by rewrite Hok.
Qed.

(** ** [handle_rate_limit_error] *)

Section HandleRateLimitError.
Variables (s : RateLimiter) (w : World).
Variables (c m f : Q) (cap factor use_proxies : value).
Hypothesis H_backoff : as_num (current_backoff s) = Ok c.
Hypothesis H_cap : config s !! "max_backoff" = Some cap.
Hypothesis H_cap_num : as_num cap = Ok m.
Hypothesis H_factor : config s !! "backoff_factor" = Some factor.
Hypothesis H_factor_num : as_num factor = Ok f.
Hypothesis H_use_proxies : config s !! "use_proxies" = Some use_proxies.
Hypothesis H_pool : user_agents s <> [].

Lemma handle_rate_limit_error_run :
  handle_rate_limit_error (s, w) =
  (Ok (let jittered := (c * jitter_factor (draws w (cursor w)))%Q in
       if Qltb m jittered then cap else VNum jittered),
   (after_rate_limit_error c cap m f use_proxies s, draw_consumed w)).
Proof.
  unfold handle_rate_limit_error, random_uniform, random_random, py_mul,
    py_min, cfg, _rotate_user_agent, _rotate_proxy, py_mod, when.
  unfold_monad. cbn.
  repeat (first [ rewrite H_backoff | rewrite H_cap | rewrite H_cap_num
                | rewrite H_factor | rewrite H_factor_num ]; cbn).
  destruct (Z.of_nat (length (user_agents s)) =? 0)%Z eqn:E.
  { apply Z.eqb_eq in E. destruct (user_agents s); [done|simpl in E; lia]. }
  cbn. rewrite H_use_proxies. cbn.
  unfold after_rate_limit_error, proxy_rotated, draw_consumed, jitter_factor.
  destruct (truthy use_proxies); cbn; [|reflexivity].
  destruct (proxies s) as [|p ps] eqn:Hp; cbn; [reflexivity|].
  reflexivity.
Qed.
End HandleRateLimitError.

Lemma capped_as_num (cap : value) (m x : Q) :
  as_num cap = Ok m ->
  exists q, as_num (if Qltb m x then cap else VNum x) = Ok q
            /\ (q == Qmin x m)%Q.
Proof.
  intros Hcap. destruct (Qltb m x) eqn:E.
  - apply Qltb_lt in E. exists m. split; [done|].
    symmetry. apply Q.min_r. lra.
  - apply Qltb_ge in E. exists x. split; [done|].
    symmetry. apply Q.min_l. lra.
Qed.

Lemma jitter_factor_bounds (x : Q) :
  (0 <= x < 1)%Q -> (4#5 <= jitter_factor x < 6#5)%Q.
Proof. unfold jitter_factor. intros [H0 H1]. split; lra. Qed.

Lemma proxy_rotated_frame (up : value) (s : RateLimiter) :
  config (proxy_rotated up s) = config s
  /\ current_backoff (proxy_rotated up s) = current_backoff s
  /\ error_count (proxy_rotated up s) = error_count s
  /\ user_agents (proxy_rotated up s) = user_agents s
  /\ current_user_agent_idx (proxy_rotated up s) = current_user_agent_idx s
  /\ proxies (proxy_rotated up s) = proxies s
  /\ last_request_time (proxy_rotated up s) = last_request_time s
  /\ request_times (proxy_rotated up s) = request_times s.
Proof.
  unfold proxy_rotated.
  destruct (truthy up); [|repeat split].
  destruct (proxies s) eqn:E; simpl; rewrite ?E; repeat split.
Qed.

Lemma after_rate_limit_error_fields (c : Q) (cap : value) (m f : Q)
    (up : value) (s : RateLimiter) :
  let s' := after_rate_limit_error c cap m f up s in
  config s' = config s
  /\ current_backoff s' = (if Qltb m (c * f) then cap else VNum (c * f)%Q)
  /\ error_count s' = (error_count s + 1)%Z
  /\ user_agents s' = user_agents s
  /\ current_user_agent_idx s'
     = ((current_user_agent_idx s + 1) mod Z.of_nat (length (user_agents s)))%Z
  /\ proxies s' = proxies s
  /\ last_request_time s' = last_request_time s
  /\ request_times s' = request_times s.
Proof.
  intros s'. subst s'. unfold after_rate_limit_error.
  set (s1 := set_current_user_agent_idx _ _).
  destruct (proxy_rotated_frame up s1)
    as (-> & -> & -> & -> & -> & -> & -> & ->).
  done.
Qed.

Lemma after_rate_limit_error_proxy_idx (c : Q) (cap : value) (m f : Q)
    (up : value) (s : RateLimiter) :
  current_proxy_idx (after_rate_limit_error c cap m f up s)
  = if truthy up && negb (bool_decide (proxies s = []))
    then ((current_proxy_idx s + 1) mod Z.of_nat (length (proxies s)))%Z
    else current_proxy_idx s.
Proof.
  unfold after_rate_limit_error, proxy_rotated. simpl.
  destruct (truthy up); [|done]. simpl.
  by destruct (proxies s).
Qed.

Lemma jitter_factor_affine (x : Q) :
  (jitter_factor x == (4#5) + (2#5) * x)%Q.
Proof. unfold jitter_factor. ring. Qed.

(** C3. A call to [handle_rate_limit_error] on a numerically configured
    instance returns normally; it adds exactly 1 to [error_count], makes
    no call to [time.sleep] and leaves the clock alone; it consumes one
    draw [x] of [random.random()], and the returned value is the previous
    [current_backoff] times the factor [0.8 + 0.4 * x], which lies in
    [0.8, 1.2] and follows the draw linearly, capped at [max_backoff];
    the stored [current_backoff] becomes the previous one times
    [backoff_factor], capped at [max_backoff], whatever the draw was. *)
Theorem handle_rate_limit_error_backoff (s : RateLimiter) (w : World)
    (c m f : Q) (cap factor use_proxies : value) :
  as_num (current_backoff s) = Ok c ->
  config s !! "max_backoff" = Some cap ->
  as_num cap = Ok m ->
  config s !! "backoff_factor" = Some factor ->
  as_num factor = Ok f ->
  config s !! "use_proxies" = Some use_proxies ->
  user_agents s <> [] ->
  (0 <= draws w (cursor w) < 1)%Q ->
  let r := handle_rate_limit_error (s, w) in
  let x := draws w (cursor w) in
  (exists (v : value) (b jitter : Q),
      outcome r = Ok v /\ as_num v = Ok b
      /\ (jitter == (4#5) + (2#5) * x)%Q
      /\ (4#5 <= jitter <= 6#5)%Q
      /\ (b == Qmin (c * jitter) m)%Q)
  /\ cursor (world_of r) = S (cursor w)
  /\ draws (world_of r) = draws w
  /\ error_count (self_of r) = (error_count s + 1)%Z
  /\ slept (world_of r) = slept w
  /\ clock (world_of r) = clock w
  /\ (exists n, as_num (current_backoff (self_of r)) = Ok n
                /\ (n == Qmin (c * f) m)%Q)
  /\ (forall w2 : World,
        current_backoff (self_of (handle_rate_limit_error (s, w2)))
        = current_backoff (self_of r)).
Proof.
  intros Hc Hcap Hm Hfac Hf Hup Hpool Hdraw r x. subst r x.
  rewrite (handle_rate_limit_error_run s w c m f cap factor use_proxies)
    by assumption.
  unfold outcome, self_of, world_of. cbn [fst snd].
  destruct (after_rate_limit_error_fields c cap m f use_proxies s)
    as (_ & Hcb & Hec & _).
  split; [|split; [done|split; [done|split; [exact Hec|
           split; [done|split; [done|split]]]]]].
  - destruct (capped_as_num cap m
                (c * jitter_factor (draws w (cursor w))) Hm) as (b & Hb & Hq).
    eexists _, b, (jitter_factor (draws w (cursor w))).
    split; [reflexivity|]. split; [exact Hb|].
    split; [apply jitter_factor_affine|]. split; [|exact Hq].
    pose proof (jitter_factor_bounds _ Hdraw). lra.
  - rewrite Hcb. apply capped_as_num. exact Hm.
  - intros w2.
    rewrite (handle_rate_limit_error_run s w2 c m f cap factor use_proxies)
      by assumption.
    reflexivity.
Qed.

Lemma backoff_configured_after (s : RateLimiter) (c m f : Q)
    (cap factor up : value) :
  backoff_configured s cap m factor f up ->
  let s' := after_rate_limit_error c cap m f up s in
  backoff_configured s' cap m factor f up
  /\ exists c', as_num (current_backoff s') = Ok c'
                /\ (c' == Qmin (c * f) m)%Q.
Proof.
  intros (Hcap & Hm & Hfac & Hf & Hup & Hpool) s'.
  destruct (after_rate_limit_error_fields c cap m f up s)
    as (Hcfg & Hcb & _ & Hua & _).
  fold s' in Hcfg, Hcb, Hua.
  split.
  - unfold backoff_configured. rewrite Hcfg, Hua. done.
  - rewrite Hcb. by apply capped_as_num.
Qed.

Lemma handle_times_S (k : nat) (s : RateLimiter) (w : World) (c m f : Q)
    (cap factor up : value) :
  backoff_configured s cap m factor f up ->
  as_num (current_backoff s) = Ok c ->
  let s' := after_rate_limit_error c cap m f up s in
  handle_times (S k) (s, w) =
  match handle_times k (s', draw_consumed w) with
  | (Ok rest, e) => (Ok (current_backoff s' :: rest), e)
  | (Raise x, e) => (Raise x, e)
  end.
Proof.
  intros (Hcap & Hm & Hfac & Hf & Hup & Hpool) Hc s'.
  cbn [handle_times]. unfold mbind at 1. unfold M_bind at 1.
  rewrite (handle_rate_limit_error_run s w c m f cap factor up)
    by assumption.
  fold s'. unfold_monad. cbn [fst snd].
  destruct (handle_times k (s', draw_consumed w)) as [[rest|x] e];
    reflexivity.
Qed.

Lemma escalation_step (c m f c' : Q) :
  (1 < f)%Q -> (0 < c <= m)%Q -> (c' == Qmin (c * f) m)%Q ->
  (c <= c')%Q /\ (c' <= m)%Q /\ (0 < c' <= m)%Q.
Proof.
  intros Hf [Hc0 Hcm] Hc'.
  assert (Hcf : (c <= c * f)%Q) by nra.
  destruct (Q.min_spec (c * f) m) as [[Hlt Hmin]|[Hle Hmin]];
    rewrite Hmin in Hc'; repeat split; lra.
Qed.

Lemma handle_times_chain (k : nat) :
  forall (s : RateLimiter) (w : World) (c m f : Q) (cap factor up : value),
    backoff_configured s cap m factor f up ->
    as_num (current_backoff s) = Ok c ->
    (1 < f)%Q -> (0 < c <= m)%Q ->
    exists (vs : list value) (qs : list Q),
      outcome (handle_times k (s, w)) = Ok vs
      /\ length vs = k
      /\ Forall2 (fun v q => as_num v = Ok q) vs qs
      /\ escalation_chain f m c qs.
Proof.
  induction k as [|k IH]; intros s w c m f cap factor up Hcfg Hc Hf Hcm.
  - exists [], []. repeat split. constructor.
  - rewrite (handle_times_S k s w c m f cap factor up Hcfg Hc).
    destruct (backoff_configured_after s c m f cap factor up Hcfg)
      as (Hcfg' & c' & Hc' & Hmin).
    destruct (escalation_step c m f c' Hf Hcm Hmin) as (Hle & Hcap & Hcm').
    destruct (IH _ (draw_consumed w) c' m f cap factor up Hcfg' Hc' Hf Hcm')
      as (vs & qs & Hok & Hlen & Hnum & Hchain).
    unfold outcome in *.
    destruct (handle_times k _) as [[rest|x] e]; simpl in Hok; [|done].
    injection Hok as ->.
    eexists (_ :: vs), (c' :: qs). simpl.
    split; [reflexivity|]. split; [by rewrite Hlen|].
    split; [by constructor|]. done.
Qed.

(** C4. With [backoff_factor > 1] and [0 < initial_backoff <= max_backoff],
    from an instance whose [current_backoff] lies between
    [initial_backoff] and [max_backoff] (as it does after [__init__],
    [configure] and [reset_error_count]), [k] calls in a row all return
    normally and the values stored in [current_backoff] after each call
    form, after the starting one, a chain in which each value is the
    previous one times [backoff_factor] capped at [max_backoff], is not
    below the previous one and is at most [max_backoff]. *)
Theorem backoff_escalation_monotone (k : nat) (s : RateLimiter) (w : World)
    (c i m f : Q) (initial cap factor use_proxies : value) :
  config s !! "initial_backoff" = Some initial ->
  as_num initial = Ok i ->
  config s !! "max_backoff" = Some cap ->
  as_num cap = Ok m ->
  config s !! "backoff_factor" = Some factor ->
  as_num factor = Ok f ->
  config s !! "use_proxies" = Some use_proxies ->
  user_agents s <> [] ->
  as_num (current_backoff s) = Ok c ->
  (1 < f)%Q ->
  (0 < i <= m)%Q ->
  (i <= c <= m)%Q ->
  exists (vs : list value) (qs : list Q),
    outcome (handle_times k (s, w)) = Ok vs
    /\ length vs = k
    /\ Forall2 (fun v q => as_num v = Ok q) vs qs
    /\ escalation_chain f m c qs.
Proof.
  intros Hi Hin Hcap Hm Hfac Hf Hup Hpool Hc Hf1 Him Hcm.
  apply (handle_times_chain k s w c m f cap factor use_proxies);
    [repeat split; assumption|assumption|assumption|lra].
Qed.

(** The stored backoffs of the default configuration: 5 doubles up to the
    cap of 300. *)
Example backoff_escalation_default (w : World) :
  outcome (handle_times 8 (init, w))
  = Ok [VNum 10; VNum 20; VNum 40; VNum 80; VNum 160; VNum 300; VNum 300;
        VNum 300].
Proof. vm_compute. reflexivity. Qed.

Lemma handle_times_rotation (k : nat) :
  forall (s : RateLimiter) (w : World) (c m f : Q) (cap factor up : value),
    backoff_configured s cap m factor f up ->
    as_num (current_backoff s) = Ok c ->
    (0 <= current_user_agent_idx s < Z.of_nat (length (user_agents s)))%Z ->
    let r := handle_times k (s, w) in
    (exists vs, outcome r = Ok vs)
    /\ user_agents (self_of r) = user_agents s
    /\ current_user_agent_idx (self_of r)
       = ((current_user_agent_idx s + Z.of_nat k)
            mod Z.of_nat (length (user_agents s)))%Z.
Proof.
  induction k as [|k IH]; intros s w c m f cap factor up Hcfg Hc Hidx r.
  - subst r. unfold outcome, self_of. cbn.
    split; [by eexists|]. split; [done|].
    rewrite Z.add_0_r, Z.mod_small; done.
  - subst r. rewrite (handle_times_S k s w c m f cap factor up Hcfg Hc).
    destruct (backoff_configured_after s c m f cap factor up Hcfg)
      as (Hcfg' & c' & Hc' & _).
    destruct (after_rate_limit_error_fields c cap m f up s)
      as (_ & _ & _ & Hua & Hi & _).
    set (s' := after_rate_limit_error c cap m f up s) in *.
    assert (Hidx' : (0 <= current_user_agent_idx s'
                     < Z.of_nat (length (user_agents s')))%Z).
    { rewrite Hi, Hua. apply Z.mod_pos_bound. lia. }
    destruct (IH s' (draw_consumed w) c' m f cap factor up Hcfg' Hc' Hidx')
      as ((vs & Hok) & Hpool & Hrot).
    unfold outcome, self_of in *.
    destruct (handle_times k _) as [[rest|x] e]; simpl in Hok; [|done].
    cbn [fst snd] in *.
    split; [by eexists|]. split; [congruence|].
    rewrite Hrot, Hi, Hua.
    rewrite Zplus_mod_idemp_l. f_equal. lia.
Qed.

Lemma rotated_index_differs (i n : Z) :
  (0 <= i < n)%Z -> (1 < n)%Z -> ((i + 1) mod n <> i)%Z.
Proof.
  intros Hi Hn. destruct (decide (i + 1 = n)%Z) as [E|E].
  - rewrite E, Z.mod_same by lia. lia.
  - rewrite Z.mod_small by lia. lia.
Qed.

(** C7. A call to [handle_rate_limit_error] on a numerically configured
    instance whose identity index points into a pool of pairwise distinct
    user agents (the built-in pool is one): when the pool has more than
    one entry, [get_user_agent] after the call differs from
    [get_user_agent] before it; as many calls as the pool has entries
    bring the identity index back to where it was; and the proxy index
    moves to the next proxy when [use_proxies] is true and the proxy pool
    is not empty, and stays where it was otherwise. *)
Theorem handle_rate_limit_error_rotates (s : RateLimiter) (w : World)
    (c m f : Q) (cap factor use_proxies : value) :
  as_num (current_backoff s) = Ok c ->
  config s !! "max_backoff" = Some cap ->
  as_num cap = Ok m ->
  config s !! "backoff_factor" = Some factor ->
  as_num factor = Ok f ->
  config s !! "use_proxies" = Some use_proxies ->
  (0 <= current_user_agent_idx s < Z.of_nat (length (user_agents s)))%Z ->
  NoDup (user_agents s) ->
  let r := handle_rate_limit_error (s, w) in
  ((1 < length (user_agents s))%nat ->
     exists before after,
       outcome (get_user_agent (s, w)) = Ok before
       /\ outcome (get_user_agent (self_of r, world_of r)) = Ok after
       /\ before <> after)
  /\ (let rn := handle_times (length (user_agents s)) (s, w) in
      (exists vs, outcome rn = Ok vs)
      /\ current_user_agent_idx (self_of rn) = current_user_agent_idx s)
  /\ current_proxy_idx (self_of r)
     = (if truthy use_proxies && negb (bool_decide (proxies s = []))
        then ((current_proxy_idx s + 1) mod Z.of_nat (length (proxies s)))%Z
        else current_proxy_idx s).
Proof.
  intros Hc Hcap Hm Hfac Hf Hup Hidx Hnd r.
  assert (Hpool : user_agents s <> []).
  { intros E. rewrite E in Hidx. simpl in Hidx. lia. }
  assert (Hcfg : backoff_configured s cap m factor f use_proxies)
    by (repeat split; assumption).
  subst r.
  rewrite (handle_rate_limit_error_run s w c m f cap factor use_proxies)
    by assumption.
  unfold self_of, world_of. cbn [fst snd].
  destruct (after_rate_limit_error_fields c cap m f use_proxies s)
    as (_ & _ & _ & Hua & Hi & _).
  set (s' := after_rate_limit_error c cap m f use_proxies s) in *.
  split; [|split].
  - intros Hlen.
    assert (Hidx' : (0 <= current_user_agent_idx s'
                     < Z.of_nat (length (user_agents s')))%Z).
    { rewrite Hi, Hua. apply Z.mod_pos_bound. lia. }
    destruct (py_index_in_range (user_agents s) _ Hidx)
      as (before & Hb & Hlb).
    destruct (py_index_in_range (user_agents s') _ Hidx')
      as (after & Ha & Hla).
    exists before, after.
    unfold get_user_agent. unfold_monad. cbn [fst snd].
    rewrite Hb, Ha. split; [done|]. split; [done|].
    intros ->. rewrite Hua in Hla.
    pose proof (NoDup_lookup _ _ _ _ Hnd Hlb Hla) as E.
    apply (rotated_index_differs (current_user_agent_idx s)
             (Z.of_nat (length (user_agents s)))); [done|lia|].
    rewrite <- Hi. rewrite Hi, Hua in Hidx'. rewrite Hi. lia.
  - destruct (handle_times_rotation (length (user_agents s)) s w c m f cap
                factor use_proxies Hcfg Hc Hidx) as (Hok & _ & Hrot).
    unfold self_of, outcome in *. cbn zeta.
    split; [exact Hok|]. rewrite Hrot.
    rewrite <- (Z.mul_1_l (Z.of_nat (length (user_agents s)))) at 1.
    rewrite Z.mod_add by lia. apply Z.mod_small. done.
  - apply after_rate_limit_error_proxy_idx.
Qed.

Lemma default_user_agents_NoDup : NoDup default_user_agents.
Proof. refine (bool_decide_unpack _ _). vm_compute. exact I. Qed.

(** ** [wait_if_needed] *)

Lemma time_sleep_run (step : wait_step) (d : Q) (s : RateLimiter) (w : World) :
  (0 <= d)%Q ->
  time_sleep step d (s, w) =
  (Ok tt, (s, {| clock := (clock w + d)%Q; draws := draws w;
                 cursor := cursor w; slept := slept w ++ [(step, d)] |})).
Proof.
  intros Hd. unfold time_sleep.
  destruct (Qltb d 0) eqn:E; [|reflexivity].
  apply Qltb_lt in E. lra.
Qed.

Lemma total_slept_app (a b : list (wait_step * Q)) :
  (total_slept (a ++ b) == total_slept a + total_slept b)%Q.
Proof.
  induction a as [|ev a IH]; simpl; [lra|]. rewrite IH. lra.
Qed.

Lemma rpm_sleeps_positive (s : RateLimiter) (now rl : Q) :
  Forall (fun ev => fst ev = RpmWait /\ (0 < snd ev)%Q) (rpm_sleeps s now rl).
Proof.
  unfold rpm_sleeps. destruct (Qle_bool _ _); [|constructor].
  cbv zeta. destruct (Qltb 0 _) eqn:E; [|constructor].
  apply Qltb_lt in E. repeat constructor. exact E.
Qed.

Lemma min_delay_sleeps_positive (s : RateLimiter) (now md : Q) :
  Forall (fun ev => fst ev = MinDelayWait /\ (0 < snd ev)%Q)
         (min_delay_sleeps s now md).
Proof.
  unfold min_delay_sleeps. destruct (Qltb _ _) eqn:E; [|constructor].
  apply Qltb_lt in E. repeat constructor. simpl. lra.
Qed.

Lemma noise_sleeps_nonneg (w : World) (md xd : Q) :
  (0 <= md <= xd)%Q ->
  (forall n, 0 <= draws w n < 1)%Q ->
  Forall (fun ev => fst ev = NoiseWait /\ (md <= snd ev <= xd)%Q)
         (noise_sleeps w md xd).
Proof.
  intros Hd Hdraw. unfold noise_sleeps.
  destruct (Qltb _ _); [|constructor].
  repeat constructor; simpl; specialize (Hdraw (S (cursor w))); nra.
Qed.

Section WaitIfNeeded.
Variables (s : RateLimiter) (w : World).
Variables (rl md xd : Q) (rlv mdv xdv : value).
Hypothesis H_rpm_limit : config s !! "rpm_limit" = Some rlv.
Hypothesis H_rpm_limit_num : as_num rlv = Ok rl.
Hypothesis H_min_delay : config s !! "min_delay" = Some mdv.
Hypothesis H_min_delay_num : as_num mdv = Ok md.
Hypothesis H_max_delay : config s !! "max_delay" = Some xdv.
Hypothesis H_max_delay_num : as_num xdv = Ok xd.
Hypothesis H_delays : (0 <= md <= xd)%Q.
Hypothesis H_draws : (forall n, 0 <= draws w n < 1)%Q.

Lemma wait_if_needed_run :
  let r := wait_if_needed (s, w) in
  let evs := wait_sleeps s w rl md xd in
  outcome r = Ok tt
  /\ slept (world_of r) = slept w ++ evs
  /\ (clock (world_of r) == clock w + total_slept evs)%Q
  /\ last_request_time (self_of r) = clock (world_of r).
Proof.
  pose proof (H_draws (S (cursor w))) as Hx.
  cbv zeta.
  unfold wait_sleeps, rpm_sleeps, min_delay_sleeps, noise_sleeps.
  unfold wait_if_needed, cfg_num, cfg, random_uniform, random_random, when.
  unfold_monad. cbn.
  rewrite H_rpm_limit. cbn. rewrite H_rpm_limit_num. cbn.
  destruct (Qle_bool rl _) eqn:E0; cbn;
    [destruct (Qltb 0 _) eqn:E1; cbn;
     [apply Qltb_lt in E1;
      rewrite time_sleep_run by (apply Qlt_le_weak; exact E1); cbn|]|];
    rewrite H_min_delay; cbn; rewrite H_min_delay_num; cbn;
    (destruct (Qltb (clock w - last_request_time s) md) eqn:E2; cbn;
     [apply Qltb_lt in E2;
      rewrite ?H_min_delay; cbn; rewrite ?H_min_delay_num; cbn;
      rewrite time_sleep_run by lra; cbn|]);
    (destruct (Qltb (draws w (cursor w)) (1 # 5)) eqn:E3; cbn;
     [rewrite ?H_min_delay; cbn; rewrite ?H_min_delay_num;
      cbn; rewrite H_max_delay; cbn; rewrite H_max_delay_num; cbn;
      rewrite time_sleep_run by nra; cbn|]);
    (split; [reflexivity|];
     split; [rewrite <- ?app_assoc, ?app_nil_r; reflexivity|];
     split; [ring|reflexivity]).
Qed.
End WaitIfNeeded.

Lemma total_slept_nonneg (evs : list (wait_step * Q)) :
  Forall (fun ev => (0 <= snd ev)%Q) evs -> (0 <= total_slept evs)%Q.
Proof.
  induction 1 as [|ev evs Hev _ IH]; simpl; lra.
Qed.

Lemma sleeps_at_app (step : wait_step) (a b : list (wait_step * Q)) :
  sleeps_at step (a ++ b) = sleeps_at step a ++ sleeps_at step b.
Proof. unfold sleeps_at. by rewrite List.filter_app, fmap_app. Qed.

Lemma sleeps_at_other (step : wait_step) (evs : list (wait_step * Q)) :
  Forall (fun ev => wait_step_eqb step (fst ev) = false) evs ->
  sleeps_at step evs = [].
Proof.
  unfold sleeps_at. induction 1 as [|ev evs Hev _ IH]; simpl; [done|].
  by rewrite Hev.
Qed.

Lemma new_sleeps_app {A} (w : World) (r : result A * Env)
    (evs : list (wait_step * Q)) :
  slept (world_of r) = slept w ++ evs -> new_sleeps w r = evs.
Proof.
  intros H. unfold new_sleeps. rewrite H. apply drop_app_length.
Qed.




Lemma wait_sleeps_min_delay (s : RateLimiter) (w : World) (rl md xd : Q) :
  sleeps_at MinDelayWait (wait_sleeps s w rl md xd)
  = snd <$> min_delay_sleeps s (clock w) md.
Proof.
  unfold wait_sleeps. rewrite !sleeps_at_app.
  rewrite (sleeps_at_other MinDelayWait (rpm_sleeps _ _ _)).
  2:{ eapply Forall_impl; [apply rpm_sleeps_positive|].
      intros ev [-> _]. done. }
  rewrite (sleeps_at_other MinDelayWait (noise_sleeps _ _ _)).
  2:{ unfold noise_sleeps. destruct (Qltb _ _); repeat constructor. }
  rewrite app_nil_r. simpl.
  unfold min_delay_sleeps. by destruct (Qltb _ _).
Qed.

Lemma min_delay_step_entry_elapsed (s : RateLimiter) (w : World)
    (rl md xd : Q) (rlv mdv xdv : value) :
  config s !! "rpm_limit" = Some rlv ->
  as_num rlv = Ok rl ->
  config s !! "min_delay" = Some mdv ->
  as_num mdv = Ok md ->
  config s !! "max_delay" = Some xdv ->
  as_num xdv = Ok xd ->
  (0 <= md <= xd)%Q ->
  (forall n, 0 <= draws w n < 1)%Q ->
  let r := wait_if_needed (s, w) in
  let evs := new_sleeps w r in
  let elapsed := (clock w - last_request_time s)%Q in
  outcome r = Ok tt
  /\ ((elapsed < md)%Q -> sleeps_at MinDelayWait evs = [(md - elapsed)%Q])
  /\ ((md <= elapsed)%Q -> sleeps_at MinDelayWait evs = [])
  /\ (last_request_time s + md <= last_request_time (self_of r))%Q.
Proof.
  intros Hrl Hrln Hmd Hmdn Hxd Hxdn Hd Hdraw r evs elapsed.
  destruct (wait_if_needed_run s w rl md xd rlv mdv xdv)
    as (Hok & Hsl & Hclock & Hlast); try assumption.
  fold r in Hok, Hsl, Hclock, Hlast.
  assert (Hevs : evs = wait_sleeps s w rl md xd)
    by (apply new_sleeps_app; exact Hsl).
  rewrite Hevs, wait_sleeps_min_delay.
  split; [done|]. unfold min_delay_sleeps. fold elapsed.
  split; [|split].
  - intros Hlt. apply Qltb_lt in Hlt. by rewrite Hlt.
  - intros Hge. apply Qltb_ge in Hge. by rewrite Hge.
  - rewrite Hlast, Hclock. unfold wait_sleeps.
    rewrite !total_slept_app.
    assert (H1 : (0 <= total_slept (rpm_sleeps s (clock w) rl))%Q).
    { apply total_slept_nonneg.
      eapply Forall_impl; [apply rpm_sleeps_positive|].
      intros ev [_ H]. lra. }
    assert (H3 : (0 <= total_slept (noise_sleeps w md xd))%Q).
    { apply total_slept_nonneg.
      eapply Forall_impl; [by apply noise_sleeps_nonneg|].
      intros ev [_ H]. lra. }
    unfold min_delay_sleeps. fold elapsed.
    destruct (Qltb elapsed md) eqn:E; simpl.
    + unfold elapsed in *. lra.
    + apply Qltb_ge in E. unfold elapsed in *. lra.
Qed.

(** C2, as the code has it. The elapsed time since [last_request_time] is
    taken once, at entry, before any RPM wait. When it is below
    [min_delay] the min-delay step sleeps for [min_delay] minus it,
    whether or not the RPM step slept; otherwise the step does not sleep.
    The reading stored in [last_request_time] on return is at least
    [min_delay] after the previous one. *)
Theorem wait_if_needed_min_delay_floor (s : RateLimiter) (w : World)
    (rl md xd : Q) (rlv mdv xdv : value) :
  config s !! "rpm_limit" = Some rlv ->
  as_num rlv = Ok rl ->
  config s !! "min_delay" = Some mdv ->
  as_num mdv = Ok md ->
  config s !! "max_delay" = Some xdv ->
  as_num xdv = Ok xd ->
  (0 <= md <= xd)%Q ->
  (forall n, 0 <= draws w n < 1)%Q ->
  let r := wait_if_needed (s, w) in
  let evs := new_sleeps w r in
  let elapsed := (clock w - last_request_time s)%Q in
  outcome r = Ok tt
  /\ ((elapsed < md)%Q -> sleeps_at MinDelayWait evs = [(md - elapsed)%Q])
  /\ ((md <= elapsed)%Q -> sleeps_at MinDelayWait evs = [])
  /\ (last_request_time s + md <= last_request_time (self_of r))%Q.
Proof.
  intros Hrl Hrln Hmd Hmdn Hxd Hxdn Hd Hdraw.
  apply (min_delay_step_entry_elapsed s w rl md xd rlv mdv xdv);
    assumption.
Qed.

(** C2, as the specification words it, fails: called at 100.5 with a
    request logged and paced at 100, [rpm_limit = 1] and [min_delay = 1],
    the RPM step sleeps 60.5 s, after which 61 s have elapsed since
    [last_request_time]; the min-delay step still sleeps 0.5 s. *)
Lemma min_delay_not_rechecked :
  config recheck_limiter !! "min_delay" = Some (VNum 1)
  /\ new_sleeps (quiet_world (201#2))
       (wait_if_needed (recheck_limiter, quiet_world (201#2)))
     = [(RpmWait, 121#2); (MinDelayWait, 1#2)]
  /\ ~ min_delay_rechecked recheck_limiter (quiet_world (201#2)) 1.
Proof.
  split; [reflexivity|]. split; [vm_compute; reflexivity|].
  unfold min_delay_rechecked. cbv zeta. intros [_ H].
  assert (Hle : (1 <= clock (quiet_world (201#2))
                     + total_slept
                         (List.filter
                            (fun ev => wait_step_eqb RpmWait (fst ev))
                            (new_sleeps (quiet_world (201#2))
                               (wait_if_needed
                                  (recheck_limiter, quiet_world (201#2)))))
                     - last_request_time recheck_limiter)%Q).
  { vm_compute. discriminate. }
  specialize (H Hle). vm_compute in H. discriminate H.
Qed.

Lemma same_last_request_time_run_op (o : op) :
  o <> WaitIfNeeded -> keeps same_last_request_time (run_op o).
Proof.
  assert (Hua : keeps same_last_request_time _rotate_user_agent).
  { intros [s w]. unfold _rotate_user_agent, py_mod. unfold_monad. cbn.
    destruct (_ =? 0)%Z; reflexivity. }
  assert (Hpx : keeps same_last_request_time _rotate_proxy).
  { intros [s w]. unfold _rotate_proxy, py_mod. unfold_monad. cbn.
    destruct (proxies s); reflexivity. }
  intros Ho.
  destruct o; simpl; try done; try assumption;
    try (apply keeps_bind; [| |intros; apply keeps_ret]);
    first [ apply keeps_configure | apply keeps_record_request
          | apply keeps_handle_rate_limit_error
          | apply keeps_get_backoff_time | apply keeps_reset_error_count
          | apply keeps_get_proxy | apply keeps_get_user_agent
          | apply keeps_get_request_stats | idtac ];
    try assumption;
    solve [ intros; hnf; reflexivity
          | intros; hnf in *; congruence ].
Qed.

(** C9. [__init__] sets [last_request_time] to 0 and no method other than
    [wait_if_needed] changes it. While it is 0 and the clock reads at
    least [min_delay], the min-delay step of [wait_if_needed] does not
    sleep. [get_request_stats] reports [time_since_last] as [None]
    exactly when [last_request_time] is 0. *)
Theorem last_request_time_zero_is_never (s : RateLimiter) (w : World)
    (rl md xd : Q) (rlv mdv xdv : value) :
  config s !! "rpm_limit" = Some rlv ->
  as_num rlv = Ok rl ->
  config s !! "min_delay" = Some mdv ->
  as_num mdv = Ok md ->
  config s !! "max_delay" = Some xdv ->
  as_num xdv = Ok xd ->
  (0 <= md <= xd)%Q ->
  (forall n, 0 <= draws w n < 1)%Q ->
  last_request_time init = 0%Q
  /\ (forall o, o <> WaitIfNeeded ->
        last_request_time (self_of (run_op o (s, w))) = last_request_time s)
  /\ ((last_request_time s == 0)%Q -> (md <= clock w)%Q ->
        outcome (wait_if_needed (s, w)) = Ok tt
        /\ sleeps_at MinDelayWait (new_sleeps w (wait_if_needed (s, w))) = [])
  /\ exists st,
       outcome (get_request_stats (s, w)) = Ok st
       /\ (time_since_last st = None <-> (last_request_time s == 0)%Q).
Proof.
  intros Hrl Hrln Hmd Hmdn Hxd Hxdn Hd Hdraw.
  split; [reflexivity|]. split; [|split].
  - intros o Ho. apply (same_last_request_time_run_op o Ho (s, w)).
  - intros Hzero Hclock.
    destruct (min_delay_step_entry_elapsed s w rl md xd rlv mdv xdv)
      as (Hok & _ & Hnone); try assumption.
    split; [exact Hok|]. apply Hnone. lra.
  - unfold get_request_stats, cfg. unfold_monad. cbn. rewrite Hrl. cbn.
    eexists. split; [reflexivity|]. cbn.
    destruct (Qeq_bool (last_request_time s) 0) eqn:E; simpl.
    + apply Qeq_bool_iff in E. done.
    + apply Qeq_bool_neq in E. split; [done|]. intros H. by destruct E.
Qed.

(** ** The RPM wait *)

Lemma filter_within_all (now : Q) (l : list Q) :
  Forall (within_last_minute now) l -> filter (within_last_minute now) l = l.
Proof.
  induction 1 as [|t l Ht _ IH]; [reflexivity|].
  rewrite filter_cons, decide_True by exact Ht. by rewrite IH.
Qed.

Lemma min_list_within (now : Q) (ts : list Q) :
  forall t, within_last_minute now t ->
            Forall (within_last_minute now) ts ->
            within_last_minute now (min_list t ts).
Proof.
  unfold min_list.
  induction ts as [|u ts IH]; intros t Ht Hts; simpl; [exact Ht|].
  inversion Hts as [|? ? Hu Hts']; subst.
  apply IH; [|exact Hts'].
  unfold within_last_minute in *.
  destruct (Q.min_spec t u) as [[_ E]|[_ E]]; rewrite E; assumption.
Qed.

(** When every entry of the log lies within the last minute and the limit
    is reached, the RPM step of the code sleeps for the wait of the
    specification, which is more than one second. *)
Lemma rpm_sleeps_fresh_log (s : RateLimiter) (now rl : Q) (t : Q)
    (ts : list Q) :
  request_times s = t :: ts ->
  Forall (within_last_minute now) (t :: ts) ->
  (rl <= inject_Z (Z.of_nat (length (t :: ts))))%Q ->
  exists d,
    rpm_sleeps s now rl = [(RpmWait, d)]
    /\ rpm_wait_spec now (request_times s) = Some d
    /\ (1 < d)%Q.
Proof.
  intros Hlog Hall Hrl.
  exists (61 - (now - min_list t ts))%Q.
  assert (Hmin : within_last_minute now (min_list t ts)).
  { inversion Hall; subst. by apply min_list_within. }
  unfold within_last_minute in Hmin.
  split; [|split; [|lra]].
  - unfold rpm_sleeps. rewrite count_recent_filter, Hlog.
    rewrite filter_within_all by exact Hall.
    apply Qle_bool_iff in Hrl. rewrite Hrl. cbv zeta.
    replace (Qltb 0 (61 - (now - min_list t ts))) with true; [reflexivity|].
    symmetry. apply Qltb_lt. lra.
  - unfold rpm_wait_spec, oldest_within_window. rewrite Hlog.
    rewrite filter_within_all by exact Hall. reflexivity.
Qed.

(** When the oldest entry of the whole log is 61 s old or more, the RPM
    step of the code does not sleep, however many entries lie within the
    last minute. *)
Lemma rpm_sleeps_stale_log (s : RateLimiter) (now rl : Q) (t : Q)
    (ts : list Q) :
  request_times s = t :: ts ->
  (min_list t ts <= now - 61)%Q ->
  rpm_sleeps s now rl = [].
Proof.
  intros Hlog Hold. unfold rpm_sleeps. rewrite Hlog.
  destruct (Qle_bool rl _); [|reflexivity]. cbv zeta.
  replace (Qltb 0 (61 - (now - min_list t ts))) with false; [reflexivity|].
  symmetry. apply Qltb_ge. lra.
Qed.

(** The limiter with the stale entry is what ordinary use leaves behind:
    [rpm_limit] set to 2, then a paced and recorded request at each of the
    readings 1000, 1100 and 1101. *)
Lemma stale_log_reached :
  outcome (stale_log_scenario (init, quiet_world 0)) = Ok tt
  /\ self_of (stale_log_scenario (init, quiet_world 0)) = stale_log_limiter
  /\ slept (world_of (stale_log_scenario (init, quiet_world 0))) = [].
Proof. vm_compute. repeat split. Qed.

(** C1 at a log with a stale entry. With [rpm_limit = 2] and the log
    [1000, 1100, 1101] read at 1102, two requests lie within the last
    minute and the wait of the specification is 59 s; the code takes the
    minimum of the whole log as [oldest_in_window], finds a wait that is
    not positive and returns without sleeping at all. *)
Theorem rpm_wait_skipped_with_stale_entry :
  config stale_log_limiter !! "rpm_limit" = Some (VNum 2)
  /\ length (filter (within_last_minute 1102)
               (request_times stale_log_limiter)) = 2%nat
  /\ (exists d, rpm_wait_spec 1102 (request_times stale_log_limiter) = Some d
                /\ (d == 59)%Q)
  /\ outcome (wait_if_needed (stale_log_limiter, quiet_world 1102)) = Ok tt
  /\ slept (world_of (wait_if_needed (stale_log_limiter, quiet_world 1102)))
     = [].
Proof.
  split; [reflexivity|]. split; [vm_compute; reflexivity|].
  split; [|split; vm_compute; reflexivity].
  eexists. split; [vm_compute; reflexivity|]. reflexivity.
Qed.

(** ** The theorems at concrete instances *)

Lemma quiet_world_draws (t : Q) (n : nat) :
  (0 <= draws (quiet_world t) n < 1)%Q.
Proof. simpl. split; [discriminate|reflexivity]. Qed.

Lemma init_tunables (k : string) :
  k ∈ tunables -> is_Some (config init !! k).
Proof.
  unfold tunables. intros Hk.
  repeat (apply elem_of_cons in Hk as [->|Hk]; [by eexists|]).
  by apply elem_of_nil in Hk.
Qed.

Lemma configure_overwrites_config_keys_witness :
  (forall k, is_Some (config init !! k) <-> k ∈ config_keys)
  /\ (let r := configure {["rpm_limit" := VNum 5; "browser" := VStr "firefox"]}
                 (init, quiet_world 0) in
      config (self_of r) !! "rpm_limit" = Some (VNum 5)
      /\ config (self_of r) !! "browser" = Some (VStr "firefox")
      /\ config (self_of r) !! "min_delay" = Some (VNum 1)
      /\ error_count (self_of r) = 0%Z).
Proof.
  split; [exact init_config_keys|].
  destruct (configure_overwrites_config_keys init (quiet_world 0)
              {["rpm_limit" := VNum 5; "browser" := VStr "firefox"]}
              init_config_keys)
    as (_ & Hsup & Hkeep & _ & _ & _ & Hec & _).
  split; [|split; [|split]].
  - apply Hsup; [|reflexivity].
    unfold config_keys, tunables. simpl. rewrite !elem_of_cons. auto 10.
  - apply Hsup; [|reflexivity].
    unfold config_keys, tunables. simpl. rewrite !elem_of_cons. auto 10.
  - rewrite Hkeep; reflexivity.
  - exact Hec.
Defined.

Lemma request_log_window_count_witness :
  (length (request_times init) <= 60)%nat
  /\ is_Some (config init !! "rpm_limit")
  /\ (length (request_times
                (self_of (record_all [1%Q; 2%Q] (init, quiet_world 0))))
      <= 60)%nat.
Proof.
  assert (H1 : (length (request_times init) <= 60)%nat) by (simpl; lia).
  assert (H2 : is_Some (config init !! "rpm_limit")) by (by eexists).
  split; [exact H1|]. split; [exact H2|].
  destruct (request_log_window_count init (quiet_world 0) [1%Q; 2%Q] 30 H1 H2)
    as (_ & Hlen & _).
  exact Hlen.
Defined.

Lemma noisy_world_draws (t : Q) (n : nat) :
  (0 <= draws (noisy_world t) n < 1)%Q.
Proof. simpl. split; [discriminate|reflexivity]. Qed.

Lemma handle_rate_limit_error_backoff_witness :
  as_num (current_backoff init) = Ok 5%Q
  /\ config init !! "max_backoff" = Some (VNum 300)
  /\ config init !! "backoff_factor" = Some (VNum 2)
  /\ config init !! "use_proxies" = Some (VBool false)
  /\ user_agents init <> []
  /\ (0 <= draws (noisy_world 0) (cursor (noisy_world 0)) < 1)%Q
  /\ (exists (v : value) (b jitter : Q),
        outcome (handle_rate_limit_error (init, noisy_world 0)) = Ok v
        /\ as_num v = Ok b
        /\ (jitter == (4#5) + (2#5) * (1#10))%Q
        /\ (4#5 <= jitter <= 6#5)%Q
        /\ (b == Qmin (5 * jitter) 300)%Q)
  /\ error_count (self_of (handle_rate_limit_error (init, noisy_world 0)))
     = (error_count init + 1)%Z.
Proof.
  assert (Hpool : user_agents init <> []) by discriminate.
  repeat (split; [first [reflexivity | exact Hpool
                        | apply noisy_world_draws]|]).
  destruct (handle_rate_limit_error_backoff init (noisy_world 0) 5 300 2
              (VNum 300) (VNum 2) (VBool false)
              eq_refl eq_refl eq_refl eq_refl eq_refl eq_refl Hpool
              (noisy_world_draws 0 0))
    as (Hret & _ & _ & Hec & _).
  split; [exact Hret|exact Hec].
Defined.

(** With a draw of one tenth the default limiter reports 5 * 0.84. *)
Example handle_rate_limit_error_jitter_example :
  exists q, outcome (handle_rate_limit_error (init, noisy_world 0))
            = Ok (VNum q)
            /\ (q == 21#5)%Q.
Proof. eexists. split; [vm_compute; reflexivity|reflexivity]. Qed.

Lemma backoff_escalation_monotone_witness :
  (1 < 2)%Q /\ (0 < 5 <= 300)%Q /\ (5 <= 5 <= 300)%Q
  /\ exists (vs : list value) (qs : list Q),
       outcome (handle_times 7 (init, quiet_world 0)) = Ok vs
       /\ length vs = 7%nat
       /\ Forall2 (fun v q => as_num v = Ok q) vs qs
       /\ escalation_chain 2 300 5 qs.
Proof.
  assert (Hpool : user_agents init <> []) by discriminate.
  assert (H1 : (1 < 2)%Q) by reflexivity.
  assert (H2 : (0 < 5 <= 300)%Q) by (split; [reflexivity|discriminate]).
  assert (H3 : (5 <= 5 <= 300)%Q) by (split; discriminate).
  split; [exact H1|]. split; [exact H2|]. split; [exact H3|].
  exact (backoff_escalation_monotone 7 init (quiet_world 0) 5 5 300 2
           (VNum 5) (VNum 300) (VNum 2) (VBool false)
           eq_refl eq_refl eq_refl eq_refl eq_refl eq_refl eq_refl Hpool
           eq_refl H1 H2 H3).
Defined.

Lemma handle_rate_limit_error_rotates_witness :
  (0 <= current_user_agent_idx init < Z.of_nat (length (user_agents init)))%Z
  /\ NoDup (user_agents init)
  /\ (1 < length (user_agents init))%nat
  /\ (exists before after,
        outcome (get_user_agent (init, quiet_world 0)) = Ok before
        /\ outcome
             (get_user_agent
                (self_of (handle_rate_limit_error (init, quiet_world 0)),
                 world_of (handle_rate_limit_error (init, quiet_world 0))))
           = Ok after
        /\ before <> after)
  /\ current_user_agent_idx
       (self_of (handle_times (length (user_agents init))
                   (init, quiet_world 0)))
     = current_user_agent_idx init.
Proof.
  assert (Hidx : (0 <= current_user_agent_idx init
                  < Z.of_nat (length (user_agents init)))%Z)
    by (simpl; lia).
  assert (Hlen : (1 < length (user_agents init))%nat) by (simpl; lia).
  split; [exact Hidx|]. split; [exact default_user_agents_NoDup|].
  split; [exact Hlen|].
  destruct (handle_rate_limit_error_rotates init (quiet_world 0) 5 300 2
              (VNum 300) (VNum 2) (VBool false)
              eq_refl eq_refl eq_refl eq_refl eq_refl eq_refl Hidx
              default_user_agents_NoDup)
    as (Hdiff & (_ & Hcycle) & _).
  split; [exact (Hdiff Hlen)|exact Hcycle].
Defined.


Lemma wait_if_needed_min_delay_floor_witness :
  (0 <= 1 <= 3)%Q
  /\ (forall n, 0 <= draws (quiet_world (201#2)) n < 1)%Q
  /\ (last_request_time recheck_limiter + 1
      <= last_request_time
           (self_of (wait_if_needed (recheck_limiter, quiet_world (201#2)))))%Q.
Proof.
  assert (Hd : (0 <= 1 <= 3)%Q) by (split; discriminate).
  split; [exact Hd|]. split; [exact (quiet_world_draws (201#2))|].
  destruct (wait_if_needed_min_delay_floor recheck_limiter
              (quiet_world (201#2)) 1 1 3 (VNum 1) (VNum 1) (VNum 3)
              eq_refl eq_refl eq_refl eq_refl eq_refl eq_refl Hd
              (quiet_world_draws (201#2)))
    as (_ & _ & _ & Hfloor).
  exact Hfloor.
Defined.

Lemma last_request_time_zero_is_never_witness :
  (0 <= 1 <= 3)%Q
  /\ (forall n, 0 <= draws (quiet_world 1000) n < 1)%Q
  /\ (last_request_time init == 0)%Q
  /\ (1 <= clock (quiet_world 1000))%Q
  /\ sleeps_at MinDelayWait
       (new_sleeps (quiet_world 1000)
          (wait_if_needed (init, quiet_world 1000))) = [].
Proof.
  assert (Hd : (0 <= 1 <= 3)%Q) by (split; discriminate).
  assert (Hz : (last_request_time init == 0)%Q) by reflexivity.
  assert (Hc : (1 <= clock (quiet_world 1000))%Q) by discriminate.
  split; [exact Hd|]. split; [exact (quiet_world_draws 1000)|].
  split; [exact Hz|]. split; [exact Hc|].
  destruct (last_request_time_zero_is_never init (quiet_world 1000) 20 1 3
              (VNum 20) (VNum 1) (VNum 3)
              eq_refl eq_refl eq_refl eq_refl eq_refl eq_refl Hd
              (quiet_world_draws 1000))
    as (_ & _ & Hwait & _).
  exact (proj2 (Hwait Hz Hc)).
Defined.

Lemma rotation_indices_in_range_witness :
  indices_in_range init
  /\ indices_in_range
       (self_of (run_op HandleRateLimitError (init, quiet_world 0)))
  /\ exists ua,
       outcome (get_user_agent (init, quiet_world 0)) = Ok ua
       /\ user_agents init !! Z.to_nat (current_user_agent_idx init) = Some ua.
Proof.
  split; [exact init_indices_in_range|].
  destruct (rotation_indices_in_range init (quiet_world 0)
              init_indices_in_range)
    as (Hops & Hua & _).
  split; [exact (proj1 (Hops HandleRateLimitError))|exact Hua].
Defined.

(** ** Conditions kept by the methods *)

Section Hoare.
Variable X : exn -> Prop.

Lemma hoare_ret (I : Env -> Prop) {A} (a : A) : hoare I (mret a) I X.
Proof. intros e He. split; [exact He|]. intros x Hx. discriminate Hx. Qed.

Lemma hoare_raise (I : Env -> Prop) {A} (x : exn) :
  X x -> hoare I (raise x : M A) I X.
Proof.
  intros Hx e He. split; [exact He|]. intros y Hy.
  injection Hy as <-. exact Hx.
Qed.

Lemma hoare_lift (I : Env -> Prop) {A} (r : result A) :
  (forall x, r = Raise x -> X x) -> hoare I (lift r) I X.
Proof. intros Hr e He. split; [exact He|]. intros x Hx. by apply Hr. Qed.

Lemma hoare_get_self (I : Env -> Prop) : hoare I get_self I X.
Proof. intros e He. split; [exact He|]. intros x Hx. discriminate Hx. Qed.

Lemma hoare_time_time (I : Env -> Prop) : hoare I time_time I X.
Proof. intros e He. split; [exact He|]. intros x Hx. discriminate Hx. Qed.

Lemma hoare_random_random (I : Env -> Prop) :
  (forall s w, I (s, w) -> I (s, draw_consumed w)) ->
  hoare I random_random I X.
Proof.
  intros HI [s w] He. split; [by apply HI|]. intros x Hx. discriminate Hx.
Qed.

Lemma hoare_time_sleep (I : Env -> Prop) (step : wait_step) (d : Q) :
  X ValueError ->
  (forall s w, I (s, w) -> I (s, world_slept step d w)) ->
  hoare I (time_sleep step d) I X.
Proof.
  intros HX HI [s w] He. unfold time_sleep.
  destruct (Qltb d 0); simpl.
  - split; [exact He|]. intros x Hx. injection Hx as <-. exact HX.
  - split; [by apply HI|]. intros x Hx. discriminate Hx.
Qed.

Lemma hoare_modify_self (P Q : Env -> Prop) (f : RateLimiter -> RateLimiter) :
  (forall s w, P (s, w) -> Q (f s, w)) -> hoare P (modify_self f) Q X.
Proof.
  intros Hf [s w] He. split; [by apply Hf|]. intros x Hx. discriminate Hx.
Qed.

Lemma hoare_bind (P Q' Q : Env -> Prop) {A B} (m : M A) (f : A -> M B) :
  hoare P m Q' X -> (forall a, hoare Q' (f a) Q X) ->
  (forall e, Q' e -> Q e) ->
  hoare P (m ≫= f) Q X.
Proof.
  intros Hm Hf Hsub e He. unfold mbind, M_bind.
  destruct (Hm e He) as [HQ Hx].
  destruct (m e) as [[a|x] e1]; simpl in *.
  - apply (Hf a e1 HQ).
  - split; [by apply Hsub|]. intros y Hy. injection Hy as <-.
    by apply Hx.
Qed.

Lemma hoare_inv_bind (I : Env -> Prop) {A B} (m : M A) (f : A -> M B) :
  hoare I m I X -> (forall a, hoare I (f a) I X) -> hoare I (m ≫= f) I X.
Proof. intros Hm Hf. by apply (hoare_bind I I I). Qed.

Lemma hoare_when (I : Env -> Prop) (b : bool) (m : M unit) :
  hoare I m I X -> hoare I (when b m) I X.
Proof. intros Hm. destruct b; [exact Hm|apply hoare_ret]. Qed.

Lemma hoare_cfg (I : Env -> Prop) (key : string) :
  X KeyError \/ (forall e, I e -> is_Some (config (fst e) !! key)) ->
  hoare I (cfg key) I X.
Proof.
  intros HX e He. unfold cfg. unfold_monad.
  destruct (config (fst e) !! key) as [v|] eqn:E; simpl.
  - split; [exact He|]. intros x Hx. discriminate Hx.
  - split; [exact He|]. intros x Hx. injection Hx as <-.
    destruct HX as [HX|HX]; [exact HX|].
    destruct (HX e He) as [v Hv]. congruence.
Qed.
End Hoare.

Lemma as_num_raise (v : value) (x : exn) : as_num v = Raise x -> x = TypeError.
Proof. destruct v; simpl; congruence. Qed.

Lemma py_mod_raise (a n : Z) (x : exn) :
  py_mod a n = Raise x -> x = ZeroDivisionError.
Proof. unfold py_mod. destruct (n =? 0)%Z; congruence. Qed.

Lemma py_index_raise {A} (l : list A) (i : Z) (x : exn) :
  py_index l i = Raise x -> x = IndexError.
Proof.
  unfold py_index. cbv zeta.
  destruct (_ && _); [destruct (l !! _)|]; congruence.
Qed.

(** Steps through a method body; [side] closes the conditions on the
    invariant and on the exceptions. *)
Ltac hoare_step side :=
  first
    [ apply hoare_ret
    | apply hoare_get_self
    | apply hoare_time_time
    | apply hoare_cfg; solve [side]
    | apply hoare_raise; solve [side]
    | apply hoare_lift; solve [side]
    | apply hoare_random_random; solve [side]
    | apply hoare_time_sleep; [solve [side]|solve [side]]
    | apply hoare_modify_self; solve [side]
    | apply hoare_when
    | apply hoare_inv_bind; [|intros ?]
    | match goal with
      | |- hoare _ (match ?t with _ => _ end) _ _ => destruct t
      end
    | progress cbv zeta ].

Ltac unfold_methods :=
  unfold configure, wait_if_needed, record_request, handle_rate_limit_error,
    get_backoff_time, reset_error_count, get_proxy, get_user_agent,
    get_request_stats, _rotate_proxy, _rotate_user_agent, cfg_num,
    random_uniform, py_mul, py_min.

Ltac raise_side :=
  let x := fresh "x" in
  let Hx := fresh "Hx" in
  intros x Hx;
  first [ apply as_num_raise in Hx | apply py_mod_raise in Hx
        | apply py_index_raise in Hx ];
  subst x.

(** ** The keys of the configuration *)

Lemma configure_loop_dom (kwargs c : gmap string value) :
  dom (configure_loop (map_to_list kwargs) c) = dom c.
Proof.
  apply set_eq. intros k. rewrite !elem_of_dom, configure_loop_lookup.
  destruct (c !! k); split; intros [? ?]; by eauto.
Qed.

Lemma configure_loop_has_key (kwargs c : gmap string value) (k : string) :
  is_Some (c !! k) -> is_Some (configure_loop (map_to_list kwargs) c !! k).
Proof.
  intros [v Hv]. rewrite configure_loop_lookup, Hv. by eexists.
Qed.

Ltac keys_side :=
  first
    [ right; intros ? [Hkeys_ _]; apply Hkeys_; unfold tunables;
      rewrite !elem_of_cons; auto 10
    | raise_side; discriminate
    | discriminate
    | intros ? ? Hinv_; exact Hinv_
    | intros ? ? [Hkeys_ Hdom_]; split;
      [ intros ? ?; simpl; apply configure_loop_has_key; by apply Hkeys_
      | simpl; rewrite configure_loop_dom; exact Hdom_ ] ].

(** X1. no method raises [KeyError] or changes the key set of
    [self.config], as long as every tunable has an entry, which no method
    undoes. *)
Theorem no_method_raises_key_error (o : op) (s : RateLimiter) (w : World) :
  has_tunables s ->
  outcome (run_op o (s, w)) <> Raise KeyError
  /\ has_tunables (self_of (run_op o (s, w)))
  /\ dom (config (self_of (run_op o (s, w)))) = dom (config s).
Proof.
  intros Ht.
  assert (H : hoare (fun e => has_tunables (fst e)
                               /\ dom (config (fst e)) = dom (config s))
                (run_op o)
                (fun e => has_tunables (fst e)
                          /\ dom (config (fst e)) = dom (config s))
                (fun x => x <> KeyError)).
  { destruct o; simpl; unfold_methods; repeat hoare_step keys_side. }
  destruct (H (s, w)) as [[Ht' Hd] Hx]; [by split|].
  split; [|by split].
  intros E. by apply (Hx KeyError E).
Qed.

(** ** What each method touches *)

Ltac frame_side :=
  first
    [ left; exact I
    | exact I
    | intros; exact I
    | intros ? ? Hinv_; simpl in *; exact Hinv_ ].

Lemma wait_if_needed_frame (s : RateLimiter) (w : World) :
  let r := wait_if_needed (s, w) in
  config (self_of r) = config s
  /\ request_times (self_of r) = request_times s
  /\ error_count (self_of r) = error_count s
  /\ current_backoff (self_of r) = current_backoff s
  /\ user_agents (self_of r) = user_agents s
  /\ current_user_agent_idx (self_of r) = current_user_agent_idx s
  /\ proxies (self_of r) = proxies s
  /\ current_proxy_idx (self_of r) = current_proxy_idx s
  /\ draws (world_of r) = draws w.
Proof.
  cbv zeta. unfold self_of, world_of.
  assert (H : hoare
    (fun e => config (fst e) = config s
              /\ request_times (fst e) = request_times s
              /\ error_count (fst e) = error_count s
              /\ current_backoff (fst e) = current_backoff s
              /\ user_agents (fst e) = user_agents s
              /\ current_user_agent_idx (fst e) = current_user_agent_idx s
              /\ proxies (fst e) = proxies s
              /\ current_proxy_idx (fst e) = current_proxy_idx s
              /\ draws (snd e) = draws w)
    wait_if_needed
    (fun e => config (fst e) = config s
              /\ request_times (fst e) = request_times s
              /\ error_count (fst e) = error_count s
              /\ current_backoff (fst e) = current_backoff s
              /\ user_agents (fst e) = user_agents s
              /\ current_user_agent_idx (fst e) = current_user_agent_idx s
              /\ proxies (fst e) = proxies s
              /\ current_proxy_idx (fst e) = current_proxy_idx s
              /\ draws (snd e) = draws w)
    (fun _ => True)).
  { unfold_methods. repeat hoare_step frame_side. }
  apply (H (s, w)). simpl. repeat split.
Qed.

(** X2. [wait_if_needed] writes [last_request_time] and nothing else of
    the instance, and leaves the random source as it is; in particular it
    does not log the request. *)
Theorem wait_if_needed_footprint (s : RateLimiter) (w : World) :
  let r := wait_if_needed (s, w) in
  config (self_of r) = config s
  /\ request_times (self_of r) = request_times s
  /\ error_count (self_of r) = error_count s
  /\ current_backoff (self_of r) = current_backoff s
  /\ user_agents (self_of r) = user_agents s
  /\ current_user_agent_idx (self_of r) = current_user_agent_idx s
  /\ proxies (self_of r) = proxies s
  /\ current_proxy_idx (self_of r) = current_proxy_idx s
  /\ draws (world_of r) = draws w.
Proof. apply wait_if_needed_frame. Qed.

(** X3. [wait_if_needed] is the only method that calls [time.sleep];
    [wait_if_needed] and [handle_rate_limit_error] are the only ones that
    draw random numbers. Whatever its outcome, any other method leaves
    the whole world as it found it. *)
Theorem only_wait_if_needed_sleeps (o : op) (s : RateLimiter) (w : World) :
  (o <> WaitIfNeeded ->
     clock (world_of (run_op o (s, w))) = clock w
     /\ slept (world_of (run_op o (s, w))) = slept w)
  /\ (o <> WaitIfNeeded -> o <> HandleRateLimitError ->
        world_of (run_op o (s, w)) = w).
Proof.
  unfold world_of. split.
  - intros Ho.
    assert (H : hoare
      (fun e => clock (snd e) = clock w /\ slept (snd e) = slept w)
      (run_op o)
      (fun e => clock (snd e) = clock w /\ slept (snd e) = slept w)
      (fun _ => True)).
    { destruct o; try done; simpl; unfold_methods;
        repeat hoare_step frame_side. }
    apply (H (s, w)). by split.
  - intros Ho1 Ho2.
    assert (H : hoare (fun e => snd e = w) (run_op o) (fun e => snd e = w)
                (fun _ => True)).
    { destruct o; try done; simpl; unfold_methods;
        repeat hoare_step frame_side. }
    by apply (H (s, w)).
Qed.

(** X4. the request log is written by [record_request] only, and the
    four accessors ([get_backoff_time], [get_proxy], [get_user_agent],
    [get_request_stats]) leave the instance exactly as it was, whatever
    their outcome. *)
Theorem log_and_accessor_footprint (o : op) (s : RateLimiter) (w : World) :
  (o <> RecordRequest ->
     request_times (self_of (run_op o (s, w))) = request_times s)
  /\ (o = GetBackoffTime \/ o = GetProxy \/ o = GetUserAgent
      \/ o = GetRequestStats ->
      self_of (run_op o (s, w)) = s).
Proof.
  unfold self_of. split.
  - intros Ho.
    assert (H : hoare (fun e => request_times (fst e) = request_times s)
                (run_op o)
                (fun e => request_times (fst e) = request_times s)
                (fun _ => True)).
    { destruct o; try done; simpl; unfold_methods;
        repeat hoare_step frame_side. }
    by apply (H (s, w)).
  - intros Ho.
    assert (H : hoare (fun e => fst e = s) (run_op o) (fun e => fst e = s)
                (fun _ => True)).
    { destruct Ho as [->|[->|[->| ->]]]; simpl; unfold_methods;
        repeat hoare_step frame_side. }
    by apply (H (s, w)).
Qed.

(** ** The escalation state *)

Lemma reset_error_count_run (s : RateLimiter) (w : World) (ib : value) :
  config s !! "initial_backoff" = Some ib ->
  let r := reset_error_count (s, w) in
  outcome r = Ok tt
  /\ world_of r = w
  /\ ((0 < error_count s)%Z ->
        self_of r = set_current_backoff ib (set_error_count 0 s))
  /\ ((error_count s <= 0)%Z -> self_of r = s)
  /\ reset_error_count (self_of r, world_of r)
     = (Ok tt, (self_of r, world_of r)).
Proof.
  intros Hib. cbv zeta.
  unfold reset_error_count, cfg, when. unfold_monad. cbn.
  destruct (0 <? error_count s)%Z eqn:E; cbn.
  - apply Z.ltb_lt in E. rewrite Hib. cbn.
    repeat split; try done. lia.
  - rewrite E. apply Z.ltb_ge in E.
    repeat split; try done. lia.
Qed.

(** X5. [reset_error_count] returns normally and touches nothing but
    [error_count] and [current_backoff]: with a positive [error_count] it
    stores 0 and the configured [initial_backoff]; otherwise it changes
    nothing; a second call right after the first changes nothing. *)
Theorem reset_error_count_resets (s : RateLimiter) (w : World) (ib : value) :
  config s !! "initial_backoff" = Some ib ->
  let r := reset_error_count (s, w) in
  outcome r = Ok tt
  /\ world_of r = w
  /\ ((0 < error_count s)%Z ->
        self_of r = set_current_backoff ib (set_error_count 0 s))
  /\ ((error_count s <= 0)%Z -> self_of r = s)
  /\ reset_error_count (self_of r, world_of r)
     = (Ok tt, (self_of r, world_of r)).
Proof. apply reset_error_count_run. Qed.

Lemma backoff_state_ok_frame (s s' : RateLimiter) :
  config s' = config s -> error_count s' = error_count s ->
  current_backoff s' = current_backoff s ->
  backoff_state_ok s -> backoff_state_ok s'.
Proof. unfold backoff_state_ok. intros -> -> ->. done. Qed.

Lemma init_backoff_state_ok : backoff_state_ok init.
Proof.
  unfold backoff_state_ok. simpl. split; [by eexists|]. split; [lia|done].
Qed.

Lemma backoff_fields_kept (o : op) (s : RateLimiter) (w : World) :
  (forall kwargs, o <> Configure kwargs) ->
  o <> HandleRateLimitError -> o <> ResetErrorCount ->
  config (self_of (run_op o (s, w))) = config s
  /\ error_count (self_of (run_op o (s, w))) = error_count s
  /\ current_backoff (self_of (run_op o (s, w))) = current_backoff s.
Proof.
  intros Hc Hh Hr.
  assert (H : hoare
    (fun e => config (fst e) = config s
              /\ error_count (fst e) = error_count s
              /\ current_backoff (fst e) = current_backoff s)
    (run_op o)
    (fun e => config (fst e) = config s
              /\ error_count (fst e) = error_count s
              /\ current_backoff (fst e) = current_backoff s)
    (fun _ => True)).
  { destruct o; try done; try (by destruct (Hc kwargs)); simpl;
      unfold_methods; repeat hoare_step frame_side. }
  by apply (H (s, w)).
Qed.

Lemma handle_rate_limit_error_counts (s : RateLimiter) (w : World) :
  config (self_of (handle_rate_limit_error (s, w))) = config s
  /\ error_count (self_of (handle_rate_limit_error (s, w)))
     = (error_count s + 1)%Z.
Proof.
  assert (H : hoare
    (fun e => fst e = s)
    handle_rate_limit_error
    (fun e => config (fst e) = config s
              /\ error_count (fst e) = (error_count s + 1)%Z)
    (fun _ => True)).
  { unfold_methods.
    apply (hoare_bind _ _
             (fun e => config (fst e) = config s
                       /\ error_count (fst e) = (error_count s + 1)%Z)
             (fun e => config (fst e) = config s
                       /\ error_count (fst e) = (error_count s + 1)%Z)).
    - apply hoare_modify_self. intros s0 w0 E. simpl in E. subst s0. done.
    - intros ?. repeat hoare_step frame_side.
    - auto. }
  by apply (H (s, w)).
Qed.

(** X6. every method keeps the escalation state coherent: [error_count]
    never becomes negative and, whenever it is 0, [current_backoff] is the
    [initial_backoff] of the current configuration. *)
Theorem backoff_state_stays_coherent (o : op) (s : RateLimiter) (w : World) :
  backoff_state_ok s -> backoff_state_ok (self_of (run_op o (s, w))).
Proof.
  intros Hok.
  destruct o as [kwargs| | | | | | | | | |].
  2,3,5,7,8,9,10,11:
    match goal with
    | |- backoff_state_ok (self_of (run_op ?o _)) =>
        destruct (backoff_fields_kept o s w) as (Hc & He & Hb);
        [done|done|done|by apply (backoff_state_ok_frame s)]
    end.
  - destruct Hok as ([ib Hib] & _).
    assert (Hib' : is_Some (configure_loop (map_to_list kwargs) (config s)
                              !! "initial_backoff"))
      by (apply configure_loop_has_key; by eexists).
    destruct Hib' as [ib' Hib']. simpl.
    rewrite (configure_run s w kwargs ib' Hib').
    unfold backoff_state_ok, self_of. simpl.
    split; [by eexists|]. split; [lia|done].
  - destruct Hok as (Hib & Hec & _).
    destruct (handle_rate_limit_error_counts s w) as [Hc He].
    assert (E : self_of (run_op HandleRateLimitError (s, w))
                = self_of (handle_rate_limit_error (s, w))).
    { simpl. unfold_monad.
      by destruct (handle_rate_limit_error (s, w)) as [[v|x] e]. }
    rewrite E. unfold backoff_state_ok. rewrite Hc, He.
    split; [exact Hib|]. split; lia.
  - destruct Hok as ([ib Hib] & Hec & Hzero). simpl.
    destruct (reset_error_count_run s w ib Hib) as (_ & _ & Hpos & Hle & _).
    destruct (Z.lt_ge_cases 0 (error_count s)) as [Hlt|Hge].
    + rewrite (Hpos Hlt). unfold backoff_state_ok. simpl.
      split; [by eexists|]. split; [lia|done].
    + rewrite (Hle Hge). unfold backoff_state_ok.
      split; [by eexists|]. split; [lia|done].
Qed.

Lemma qpow_ge_1 (f : Q) (k : nat) : (1 <= f)%Q -> (1 <= qpow f k)%Q.
Proof.
  intros Hf. induction k as [|k IH]; simpl; [lra|]. nra.
Qed.

Lemma min_pow_step (c c' m f p : Q) :
  (1 <= f)%Q -> (1 <= p)%Q -> (0 < c <= m)%Q ->
  (c' == Qmin (c * f) m)%Q ->
  (Qmin (c' * p) m == Qmin (c * (f * p)) m)%Q.
Proof.
  intros Hf Hp [Hc Hcm] Hc'.
  assert (Hcf : (0 <= c * f)%Q) by nra.
  assert (Hcfp : (c * f <= c * (f * p))%Q) by nra.
  destruct (Q.min_spec (c * f) m) as [[H1 E1]|[H1 E1]]; rewrite E1 in Hc'.
  - assert (E : (c' * p == c * (f * p))%Q) by (rewrite Hc'; ring).
    destruct (Q.min_spec (c' * p) m) as [[H2 E2]|[H2 E2]];
      destruct (Q.min_spec (c * (f * p)) m) as [[H3 E3]|[H3 E3]];
      rewrite E2, E3; lra.
  - assert (Hmp : (m <= c' * p)%Q) by (rewrite Hc'; nra).
    destruct (Q.min_spec (c' * p) m) as [[H2 E2]|[H2 E2]];
      destruct (Q.min_spec (c * (f * p)) m) as [[H3 E3]|[H3 E3]];
      rewrite E2, E3; lra.
Qed.

Lemma handle_times_state (k : nat) :
  forall (s : RateLimiter) (w : World) (c m f : Q) (cap factor up : value),
    backoff_configured s cap m factor f up ->
    as_num (current_backoff s) = Ok c ->
    (1 <= f)%Q -> (0 < c <= m)%Q ->
    let r := handle_times k (s, w) in
    (exists vs, outcome r = Ok vs)
    /\ config (self_of r) = config s
    /\ error_count (self_of r) = (error_count s + Z.of_nat k)%Z
    /\ clock (world_of r) = clock w
    /\ slept (world_of r) = slept w
    /\ exists q, as_num (current_backoff (self_of r)) = Ok q
                 /\ (q == Qmin (c * qpow f k) m)%Q.
Proof.
  induction k as [|k IH]; intros s w c m f cap factor up Hcfg Hc Hf Hcm r.
  - subst r. unfold outcome, self_of, world_of. cbn.
    split; [by eexists|]. split; [done|]. split; [lia|].
    split; [done|]. split; [done|].
    exists c. split; [done|]. symmetry. rewrite Qmult_1_r.
    apply Q.min_l. lra.
  - subst r. rewrite (handle_times_S k s w c m f cap factor up Hcfg Hc).
    destruct (backoff_configured_after s c m f cap factor up Hcfg)
      as (Hcfg' & c' & Hc' & Hmin).
    destruct (after_rate_limit_error_fields c cap m f up s)
      as (Hconf & _ & Hec & _).
    set (s' := after_rate_limit_error c cap m f up s) in *.
    assert (Hcm' : (0 < c' <= m)%Q).
    { destruct (Q.min_spec (c * f) m) as [[H1 E1]|[H1 E1]];
        rewrite E1 in Hmin; split; nra. }
    destruct (IH s' (draw_consumed w) c' m f cap factor up Hcfg' Hc' Hf Hcm')
      as ((vs & Hok) & Hconf' & Hec' & Hclock & Hslept & q & Hq & Hqmin).
    unfold outcome, self_of, world_of in *.
    destruct (handle_times k _) as [[rest|x] e]; simpl in Hok; [|done].
    cbn [fst snd] in *.
    split; [by eexists|]. split; [congruence|].
    split; [rewrite Hec', Hec; lia|].
    split; [exact Hclock|]. split; [exact Hslept|].
    exists q. split; [exact Hq|]. rewrite Hqmin. simpl qpow.
    apply min_pow_step; try assumption. by apply qpow_ge_1.
Qed.

(** X7. exponential backoff in closed form. With [backoff_factor >= 1]
    and [0 < current_backoff <= max_backoff], after [k] calls to
    [handle_rate_limit_error] in a row [get_backoff_time] returns
    [min(current_backoff * backoff_factor^k, max_backoff)], [error_count]
    has grown by [k], and nothing was slept. *)
Theorem backoff_after_k_errors (k : nat) (s : RateLimiter) (w : World)
    (c m f : Q) (cap factor use_proxies : value) :
  as_num (current_backoff s) = Ok c ->
  config s !! "max_backoff" = Some cap ->
  as_num cap = Ok m ->
  config s !! "backoff_factor" = Some factor ->
  as_num factor = Ok f ->
  config s !! "use_proxies" = Some use_proxies ->
  user_agents s <> [] ->
  (1 <= f)%Q ->
  (0 < c <= m)%Q ->
  let r := (handle_times k;; get_backoff_time) (s, w) in
  (exists v q, outcome r = Ok v /\ as_num v = Ok q
               /\ (q == Qmin (c * qpow f k) m)%Q)
  /\ error_count (self_of r) = (error_count s + Z.of_nat k)%Z
  /\ slept (world_of r) = slept w.
Proof.
  intros Hc Hcap Hm Hfac Hf Hup Hpool Hf1 Hcm r.
  assert (Hcfg : backoff_configured s cap m factor f use_proxies)
    by (repeat split; assumption).
  destruct (handle_times_state k s w c m f cap factor use_proxies Hcfg Hc
              Hf1 Hcm)
    as ((vs & Hok) & _ & Hec & _ & Hslept & q & Hq & Hqmin).
  subst r. unfold get_backoff_time. unfold_monad.
  destruct (handle_times k (s, w)) as [[rest|x] e]; simpl in Hok; [|done].
  cbn [fst snd] in *.
  split; [|by split].
  exists (current_backoff (fst e)), q. done.
Qed.

(** X8. a success undoes the escalation. After one or more calls to
    [handle_rate_limit_error], [reset_error_count] stores the configured
    [initial_backoff] in [current_backoff] and 0 in [error_count]. *)
Theorem reset_after_errors (k : nat) (s : RateLimiter) (w : World)
    (c m f : Q) (ib cap factor use_proxies : value) :
  config s !! "initial_backoff" = Some ib ->
  as_num (current_backoff s) = Ok c ->
  config s !! "max_backoff" = Some cap ->
  as_num cap = Ok m ->
  config s !! "backoff_factor" = Some factor ->
  as_num factor = Ok f ->
  config s !! "use_proxies" = Some use_proxies ->
  user_agents s <> [] ->
  (1 <= f)%Q ->
  (0 < c <= m)%Q ->
  (0 <= error_count s)%Z ->
  (0 < k)%nat ->
  let r := (handle_times k;; reset_error_count) (s, w) in
  outcome r = Ok tt
  /\ current_backoff (self_of r) = ib
  /\ error_count (self_of r) = 0%Z.
Proof.
  intros Hib Hc Hcap Hm Hfac Hf Hup Hpool Hf1 Hcm Hec0 Hk r.
  assert (Hcfg : backoff_configured s cap m factor f use_proxies)
    by (repeat split; assumption).
  destruct (handle_times_state k s w c m f cap factor use_proxies Hcfg Hc
              Hf1 Hcm)
    as ((vs & Hok) & Hconf & Hec & _).
  subst r. unfold_monad.
  destruct (handle_times k (s, w)) as [[rest|x] [s1 w1]]; simpl in Hok;
    [|done].
  cbn [fst snd] in *.
  rewrite <- Hconf in Hib.
  destruct (reset_error_count_run s1 w1 ib Hib) as (Hok' & _ & Hpos & _).
  unfold_monad. rewrite Hok', Hpos by lia. done.
Qed.

(** ** [configure] as an operation on configurations *)

Lemma configure_loop_union (kw1 kw2 c : gmap string value) :
  configure_loop (map_to_list kw2) (configure_loop (map_to_list kw1) c)
  = configure_loop (map_to_list (kw2 ∪ kw1)) c.
Proof.
  apply map_eq. intros k. rewrite !configure_loop_lookup, lookup_union.
  destruct (c !! k) as [old|]; [|done].
  by destruct (kw2 !! k), (kw1 !! k).
Qed.

(** X9. two calls to [configure] in a row amount to one call with the
    keyword arguments merged, the later call winning on a shared key; so
    repeating a call changes nothing, and a call with no arguments leaves
    the configuration as it is (and still resets the escalation state). *)
Theorem configure_composes (s : RateLimiter) (w : World)
    (kw1 kw2 : gmap string value) :
  is_Some (config s !! "initial_backoff") ->
  (configure kw1;; configure kw2) (s, w) = configure (kw2 ∪ kw1) (s, w)
  /\ (configure kw1;; configure kw1) (s, w) = configure kw1 (s, w)
  /\ config (self_of (configure ∅ (s, w))) = config s.
Proof.
  intros Hib.
  assert (Hcomp : forall ka kb,
            (configure ka;; configure kb) (s, w)
            = configure (kb ∪ ka) (s, w)).
  { intros ka kb.
    destruct (configure_loop_has_key ka (config s) "initial_backoff" Hib)
      as [ib1 Hib1].
    assert (Hib2 : is_Some (configure_loop (map_to_list (kb ∪ ka)) (config s)
                              !! "initial_backoff"))
      by (by apply configure_loop_has_key).
    destruct Hib2 as [ib2 Hib2].
    unfold_monad. rewrite (configure_run s w ka ib1 Hib1).
    rewrite (configure_run s w (kb ∪ ka) ib2 Hib2).
    rewrite (configure_run _ w kb ib2).
    - simpl. rewrite configure_loop_union. reflexivity.
    - simpl. rewrite configure_loop_union. exact Hib2. }
  split; [apply Hcomp|]. split.
  - rewrite Hcomp.
    assert (E : kw1 ∪ kw1 = kw1).
    { apply map_eq. intros k. rewrite lookup_union.
      by destruct (kw1 !! k). }
    by rewrite E.
  - destruct Hib as [ib Hib].
    assert (E : configure_loop (map_to_list (∅ : gmap string value))
                  (config s) = config s).
    { apply map_eq. intros k. rewrite configure_loop_lookup, lookup_empty.
      by destruct (config s !! k). }
    rewrite (configure_run s w ∅ ib) by (by rewrite E).
    unfold self_of. simpl. exact E.
Qed.

(** ** The RPM step *)

Lemma Qmin_cases (a b : Q) : Qmin a b = a \/ Qmin a b = b.
Proof.
  unfold Qmin, GenericMinMax.gmin. destruct (a ?= b)%Q; auto.
Qed.

Lemma min_list_le_head (ts : list Q) : forall t, (min_list t ts <= t)%Q.
Proof.
  unfold min_list. induction ts as [|u ts IH]; intros t; simpl; [lra|].
  specialize (IH (Qmin t u)). pose proof (Q.le_min_l t u). lra.
Qed.

Lemma min_list_le (ts : list Q) :
  forall t u, u ∈ t :: ts -> (min_list t ts <= u)%Q.
Proof.
  induction ts as [|v ts IH]; intros t u Hu.
  - apply list_elem_of_singleton in Hu as ->. unfold min_list. simpl. lra.
  - apply elem_of_cons in Hu as [->|Hu].
    + apply min_list_le_head.
    + change (min_list t (v :: ts)) with (min_list (Qmin t v) ts).
      apply elem_of_cons in Hu as [->|Hu].
      * pose proof (min_list_le_head ts (Qmin t v)).
        pose proof (Q.le_min_r t v). lra.
      * apply IH. by apply list_elem_of_further.
Qed.

Lemma min_list_in (ts : list Q) : forall t, min_list t ts ∈ t :: ts.
Proof.
  induction ts as [|v ts IH]; intros t.
  - unfold min_list. simpl. apply list_elem_of_here.
  - change (min_list t (v :: ts)) with (min_list (Qmin t v) ts).
    specialize (IH (Qmin t v)).
    apply elem_of_cons in IH as [E|IH].
    + rewrite E. destruct (Qmin_cases t v) as [-> | ->].
      * apply list_elem_of_here.
      * apply list_elem_of_further, list_elem_of_here.
    + by do 2 apply list_elem_of_further.
Qed.

Lemma count_recent_le_length (minute_ago : Q) (l : list Q) :
  (count_recent minute_ago l <= length l)%nat.
Proof.
  induction l as [|t l IH]; simpl; [lia|].
  destruct (Qltb minute_ago t); lia.
Qed.

Lemma wait_sleeps_rpm (s : RateLimiter) (w : World) (rl md xd : Q) :
  sleeps_at RpmWait (wait_sleeps s w rl md xd)
  = snd <$> rpm_sleeps s (clock w) rl.
Proof.
  unfold wait_sleeps. rewrite !sleeps_at_app.
  rewrite (sleeps_at_other RpmWait (min_delay_sleeps _ _ _)).
  2:{ eapply Forall_impl; [apply min_delay_sleeps_positive|].
      intros ev [-> _]. done. }
  rewrite (sleeps_at_other RpmWait (noise_sleeps _ _ _)).
  2:{ unfold noise_sleeps. destruct (Qltb _ _); repeat constructor. }
  rewrite !app_nil_r.
  unfold rpm_sleeps. destruct (Qle_bool _ _); [|done].
  cbv zeta. by destruct (Qltb _ _).
Qed.

Section PacedCalls.
Variables (s : RateLimiter) (w : World).
Variables (rl md xd : Q) (rlv mdv xdv : value).
Hypothesis H_rpm_limit : config s !! "rpm_limit" = Some rlv.
Hypothesis H_rpm_limit_num : as_num rlv = Ok rl.
Hypothesis H_min_delay : config s !! "min_delay" = Some mdv.
Hypothesis H_min_delay_num : as_num mdv = Ok md.
Hypothesis H_max_delay : config s !! "max_delay" = Some xdv.
Hypothesis H_max_delay_num : as_num xdv = Ok xd.
Hypothesis H_delays : (0 <= md <= xd)%Q.
Hypothesis H_draws : (forall n, 0 <= draws w n < 1)%Q.

Lemma new_sleeps_wait_if_needed :
  new_sleeps w (wait_if_needed (s, w)) = wait_sleeps s w rl md xd.
Proof.
  destruct (wait_if_needed_run s w rl md xd rlv mdv xdv)
    as (_ & Hsl & _); try assumption.
  by apply new_sleeps_app.
Qed.

(** X10. the RPM step needs at least [rpm_limit] logged requests. With
    fewer entries in the log than [rpm_limit] (an empty log and a positive
    limit; any limit above the number of entries the log holds) it does
    not sleep. *)
Theorem rpm_step_needs_enough_entries :
  (inject_Z (Z.of_nat (length (request_times s))) < rl)%Q ->
  outcome (wait_if_needed (s, w)) = Ok tt
  /\ sleeps_at RpmWait (new_sleeps w (wait_if_needed (s, w))) = [].
Proof.
  intros Hfew.
  split; [apply (wait_if_needed_run s w rl md xd rlv mdv xdv); assumption|].
  rewrite new_sleeps_wait_if_needed, wait_sleeps_rpm. unfold rpm_sleeps.
  replace (Qle_bool rl _) with false; [done|].
  symmetry. apply not_true_is_false. intros E. apply Qle_bool_iff in E.
  pose proof (count_recent_le_length (clock w - 60) (request_times s)) as Hc.
  assert ((inject_Z (Z.of_nat (count_recent (clock w - 60) (request_times s)))
           <= inject_Z (Z.of_nat (length (request_times s))))%Q).
  { rewrite <- Zle_Qle. lia. }
  apply (Qlt_irrefl rl).
  eapply Qle_lt_trans; [exact E|]. eapply Qle_lt_trans; [eassumption|].
  exact Hfew.
Qed.

(** X11. with an [rpm_limit] that is not positive the RPM step is taken
    even on an empty log, where it sleeps for one second. *)
Theorem rpm_step_on_empty_log :
  request_times s = [] -> (rl <= 0)%Q ->
  exists d,
    sleeps_at RpmWait (new_sleeps w (wait_if_needed (s, w))) = [d]
    /\ (d == 1)%Q.
Proof.
  intros Hlog Hrl.
  rewrite new_sleeps_wait_if_needed, wait_sleeps_rpm. unfold rpm_sleeps.
  rewrite Hlog. simpl count_recent.
  replace (Qle_bool rl (inject_Z (Z.of_nat 0))) with true
    by (symmetry; apply Qle_bool_iff; exact Hrl).
  cbv zeta.
  replace (Qltb 0 (61 - (clock w - (clock w - 60)))) with true
    by (symmetry; apply Qltb_lt; lra).
  eexists. split; [reflexivity|]. simpl. ring.
Qed.

(** X12. as soon as one logged request is 61 seconds old or older, the
    RPM step does not sleep, however many requests lie within the last
    minute. *)
Theorem rpm_step_skipped_by_old_entry (t : Q) :
  t ∈ request_times s -> (t <= clock w - 61)%Q ->
  outcome (wait_if_needed (s, w)) = Ok tt
  /\ sleeps_at RpmWait (new_sleeps w (wait_if_needed (s, w))) = [].
Proof.
  intros Hin Hold.
  split; [apply (wait_if_needed_run s w rl md xd rlv mdv xdv); assumption|].
  rewrite new_sleeps_wait_if_needed, wait_sleeps_rpm.
  destruct (request_times s) as [|t0 ts] eqn:Hlog;
    [by apply elem_of_nil in Hin|].
  rewrite (rpm_sleeps_stale_log s (clock w) rl t0 ts Hlog); [done|].
  pose proof (min_list_le ts t0 t Hin). lra.
Qed.

(** X13. when the limit is reached and every logged request lies within
    the last minute, the RPM step sleeps until the oldest logged request
    is 61 seconds old; that is more than one second. *)
Theorem rpm_step_waits_for_oldest :
  request_times s <> [] ->
  Forall (within_last_minute (clock w)) (request_times s) ->
  (rl <= inject_Z (Z.of_nat (length (request_times s))))%Q ->
  exists oldest d,
    oldest ∈ request_times s
    /\ (forall t, t ∈ request_times s -> (oldest <= t)%Q)
    /\ sleeps_at RpmWait (new_sleeps w (wait_if_needed (s, w))) = [d]
    /\ (d == 61 - (clock w - oldest))%Q
    /\ (1 < d)%Q.
Proof.
  intros Hne Hall Hrl.
  destruct (request_times s) as [|t0 ts] eqn:Hlog; [done|].
  destruct (rpm_sleeps_fresh_log s (clock w) rl t0 ts Hlog Hall Hrl)
    as (d & Hd & Hspec & Hpos).
  exists (min_list t0 ts), d.
  split; [apply min_list_in|].
  split; [intros t Ht; by apply min_list_le|].
  rewrite new_sleeps_wait_if_needed, wait_sleeps_rpm, Hd.
  split; [done|]. split; [|done].
  unfold rpm_wait_spec, oldest_within_window in Hspec.
  rewrite Hlog, filter_within_all in Hspec by exact Hall.
  simpl in Hspec. injection Hspec as <-. reflexivity.
Qed.

(** X14. when no stored timestamp lies in the future (the first logged
    request and [last_request_time] are not after the clock reading), a
    call blocks for at most [61 + min_delay + max_delay] seconds. *)
Theorem wait_if_needed_blocks_at_most :
  (forall t, head (request_times s) = Some t -> (t <= clock w)%Q) ->
  (last_request_time s <= clock w)%Q ->
  (total_slept (new_sleeps w (wait_if_needed (s, w))) <= 61 + md + xd)%Q
  /\ (clock (world_of (wait_if_needed (s, w))) <= clock w + 61 + md + xd)%Q.
Proof.
  intros Hhead Hlast.
  destruct (wait_if_needed_run s w rl md xd rlv mdv xdv)
    as (_ & _ & Hclock & _); try assumption.
  rewrite Hclock, <- new_sleeps_wait_if_needed.
  assert (Hb : (total_slept (new_sleeps w (wait_if_needed (s, w)))
                <= 61 + md + xd)%Q); [|split; [exact Hb|lra]].
  rewrite new_sleeps_wait_if_needed. unfold wait_sleeps.
  rewrite !total_slept_app.
  assert (H1 : (total_slept (rpm_sleeps s (clock w) rl) <= 61)%Q).
  { unfold rpm_sleeps. destruct (Qle_bool _ _); [|cbn [total_slept foldr]; lra].
    cbv zeta. destruct (Qltb 0 _); [|cbn [total_slept foldr]; lra].
    cbn [total_slept foldr snd].
    destruct (request_times s) as [|t0 ts]; [lra|].
    pose proof (min_list_le_head ts t0).
    pose proof (Hhead t0 eq_refl). lra. }
  assert (H2 : (total_slept (min_delay_sleeps s (clock w) md) <= md)%Q).
  { unfold min_delay_sleeps. destruct (Qltb _ _); cbn [total_slept foldr snd]; lra. }
  assert (H3 : (total_slept (noise_sleeps w md xd) <= xd)%Q).
  { pose proof (noise_sleeps_nonneg w md xd H_delays H_draws) as Hn.
    unfold noise_sleeps in *.
    destruct (Qltb (draws w (cursor w)) (1 # 5));
      [|cbn [total_slept foldr]; lra].
    inversion Hn as [|ev evs (_ & _ & Hev) _]; subst.
    cbn [total_slept foldr fst snd] in *. lra. }
  lra.
Qed.

(** X15. two calls to [wait_if_needed] back to back: with a positive
    [min_delay] the min-delay step of the second call sleeps for the full
    [min_delay]. *)
Theorem wait_if_needed_twice :
  (0 < md)%Q ->
  let r1 := wait_if_needed (s, w) in
  let r2 := wait_if_needed (self_of r1, world_of r1) in
  outcome r2 = Ok tt
  /\ exists d,
       sleeps_at MinDelayWait (new_sleeps (world_of r1) r2) = [d]
       /\ (d == md)%Q.
Proof.
  intros Hmd r1 r2.
  destruct (wait_if_needed_run s w rl md xd rlv mdv xdv)
    as (_ & _ & _ & Hlast); try assumption.
  destruct (wait_if_needed_frame s w) as (Hcfg & _ & _ & _ & _ & _ & _ & _ & Hdr).
  fold r1 in Hlast, Hcfg, Hdr.
  destruct (min_delay_step_entry_elapsed (self_of r1) (world_of r1)
              rl md xd rlv mdv xdv) as (Hok & Hlt & _);
    try (rewrite Hcfg; assumption); try assumption.
  { rewrite Hdr. exact H_draws. }
  fold r2 in Hok, Hlt. split; [exact Hok|].
  eexists. split; [apply Hlt; rewrite Hlast; lra|].
  rewrite Hlast. ring.
Qed.
End PacedCalls.

(** ** Misconfiguration *)

(** X16. [configure] stores negative delays as they are; with
    [min_delay <= max_delay < 0], whenever the noise step is drawn (a draw
    below 0.2) [wait_if_needed] raises the [ValueError] of [time.sleep]
    and does not update [last_request_time]. *)
Theorem wait_if_needed_negative_delay (s : RateLimiter) (w : World)
    (rl md xd : Q) (rlv mdv xdv : value) :
  config s !! "rpm_limit" = Some rlv ->
  as_num rlv = Ok rl ->
  config s !! "min_delay" = Some mdv ->
  as_num mdv = Ok md ->
  config s !! "max_delay" = Some xdv ->
  as_num xdv = Ok xd ->
  (md <= xd)%Q -> (xd < 0)%Q ->
  (draws w (cursor w) < 1#5)%Q ->
  (0 <= draws w (S (cursor w)) < 1)%Q ->
  outcome (wait_if_needed (s, w)) = Raise ValueError
  /\ last_request_time (self_of (wait_if_needed (s, w)))
     = last_request_time s.
Proof.
  intros Hrl Hrln Hmd Hmdn Hxd Hxdn Hle Hneg Hdraw Hx.
  apply Qltb_lt in Hdraw.
  assert (Hnoise : Qltb (md + (xd - md) * draws w (S (cursor w))) 0 = true)
    by (apply Qltb_lt; nra).
  unfold wait_if_needed, cfg_num, cfg, random_uniform, random_random, when.
  unfold_monad. cbn.
  rewrite Hrl. cbn. rewrite Hrln. cbn.
  destruct (Qle_bool rl _) eqn:E0; cbn;
    [destruct (Qltb 0 _) eqn:E1; cbn;
     [apply Qltb_lt in E1;
      rewrite time_sleep_run by (apply Qlt_le_weak; exact E1); cbn|]|];
    rewrite Hmd; cbn; rewrite Hmdn; cbn;
    (destruct (Qltb (clock w - last_request_time s) md) eqn:E2; cbn;
     [apply Qltb_lt in E2;
      rewrite ?Hmd; cbn; rewrite ?Hmdn; cbn;
      rewrite time_sleep_run by lra; cbn|]);
    rewrite Hdraw; cbn;
    rewrite ?Hmd; cbn; rewrite ?Hmdn; cbn; rewrite Hxd; cbn; rewrite Hxdn; cbn;
    unfold time_sleep; cbn [fst snd]; rewrite Hnoise; cbn; done.
Qed.

(** X17. a call to [handle_rate_limit_error] that fails is not undone.
    With a [max_backoff] that is not a number the call raises
    [TypeError] after [error_count] was incremented and one random number
    was drawn; [current_backoff] and both rotation indices stay as they
    were. *)
Theorem handle_rate_limit_error_type_error (s : RateLimiter) (w : World)
    (c : Q) (cap : value) :
  as_num (current_backoff s) = Ok c ->
  config s !! "max_backoff" = Some cap ->
  as_num cap = Raise TypeError ->
  let r := handle_rate_limit_error (s, w) in
  outcome r = Raise TypeError
  /\ self_of r = set_error_count (error_count s + 1) s
  /\ world_of r = draw_consumed w.
Proof.
  intros Hc Hcap Hnum.
  unfold handle_rate_limit_error, random_uniform, random_random, py_mul,
    py_min, cfg.
  unfold_monad. cbn.
  rewrite Hc. cbn. rewrite Hcap. cbn. rewrite Hnum. cbn. done.
Qed.

(** ** Round robin *)

(** X18. the identities are used round robin: every user agent of the
    pool is the current one after fewer calls to
    [handle_rate_limit_error] than the pool has entries. *)
Theorem every_user_agent_comes_up (s : RateLimiter) (w : World)
    (c m f : Q) (cap factor use_proxies : value) (ua : string) :
  as_num (current_backoff s) = Ok c ->
  config s !! "max_backoff" = Some cap ->
  as_num cap = Ok m ->
  config s !! "backoff_factor" = Some factor ->
  as_num factor = Ok f ->
  config s !! "use_proxies" = Some use_proxies ->
  (0 <= current_user_agent_idx s < Z.of_nat (length (user_agents s)))%Z ->
  ua ∈ user_agents s ->
  exists j,
    (j < length (user_agents s))%nat
    /\ outcome ((handle_times j;; get_user_agent) (s, w)) = Ok ua.
Proof.
  intros Hc Hcap Hm Hfac Hf Hup Hidx Hua.
  assert (Hpool : user_agents s <> []).
  { intros E. rewrite E in Hidx. simpl in Hidx. lia. }
  assert (Hcfg : backoff_configured s cap m factor f use_proxies)
    by (repeat split; assumption).
  apply list_elem_of_lookup in Hua as [p Hp].
  pose proof (lookup_lt_Some _ _ _ Hp) as Hlt.
  assert (Hpn : (0 <= Z.of_nat p < Z.of_nat (length (user_agents s)))%Z)
    by lia.
  remember (Z.of_nat (length (user_agents s))) as n eqn:En.
  remember (current_user_agent_idx s) as i eqn:Ei.
  assert (Hj : (0 <= (Z.of_nat p - i) mod n < n)%Z)
    by (apply Z.mod_pos_bound; lia).
  exists (Z.to_nat ((Z.of_nat p - i) mod n)).
  split; [apply Nat2Z.inj_lt; rewrite Z2Nat.id, <- En by lia; lia|].
  assert (Hidx' : (0 <= current_user_agent_idx s
                   < Z.of_nat (length (user_agents s)))%Z)
    by (rewrite <- En, <- Ei; exact Hidx).
  destruct (handle_times_rotation (Z.to_nat ((Z.of_nat p - i) mod n)) s w
              c m f cap factor use_proxies Hcfg Hc Hidx')
    as ((vs & Hok) & Hsame & Hrot).
  rewrite <- En, <- Ei in Hrot.
  rewrite Z2Nat.id, Zplus_mod_idemp_r in Hrot by lia.
  replace (i + (Z.of_nat p - i))%Z with (Z.of_nat p) in Hrot by lia.
  rewrite (Z.mod_small (Z.of_nat p)) in Hrot by lia.
  unfold get_user_agent. unfold_monad.
  destruct (handle_times _ (s, w)) as [[rest|x] e]; simpl in Hok; [|done].
  cbn [fst snd] in *.
  rewrite Hrot, Hsame. unfold py_index. cbv zeta. rewrite <- En.
  replace (Z.of_nat p <? 0)%Z with false by (symmetry; apply Z.ltb_ge; lia).
  replace ((0 <=? Z.of_nat p)%Z && (Z.of_nat p <? n)%Z) with true
    by (symmetry; apply andb_true_iff; split;
        [apply Z.leb_le|apply Z.ltb_lt]; lia).
  by rewrite Nat2Z.id, Hp.
Qed.

(** ** The further theorems at concrete instances *)

Lemma no_method_raises_key_error_witness :
  has_tunables init
  /\ outcome (run_op WaitIfNeeded (init, quiet_world 0)) <> Raise KeyError.
Proof.
  split; [exact init_tunables|].
  destruct (no_method_raises_key_error WaitIfNeeded init (quiet_world 0)
              init_tunables) as (H & _).
  exact H.
Defined.

Lemma only_wait_if_needed_sleeps_witness :
  RecordRequest <> WaitIfNeeded
  /\ RecordRequest <> HandleRateLimitError
  /\ world_of (run_op RecordRequest (init, quiet_world 0)) = quiet_world 0.
Proof.
  assert (H1 : RecordRequest <> WaitIfNeeded) by discriminate.
  assert (H2 : RecordRequest <> HandleRateLimitError) by discriminate.
  split; [exact H1|]. split; [exact H2|].
  destruct (only_wait_if_needed_sleeps RecordRequest init (quiet_world 0))
    as (_ & H).
  exact (H H1 H2).
Defined.

Lemma log_and_accessor_footprint_witness :
  GetProxy <> RecordRequest
  /\ request_times (self_of (run_op GetProxy (stale_log_limiter, quiet_world 0)))
     = request_times stale_log_limiter
  /\ self_of (run_op GetProxy (stale_log_limiter, quiet_world 0))
     = stale_log_limiter.
Proof.
  assert (H1 : GetProxy <> RecordRequest) by discriminate.
  split; [exact H1|].
  destruct (log_and_accessor_footprint GetProxy stale_log_limiter
              (quiet_world 0)) as (Hlog & Hacc).
  split; [exact (Hlog H1)|].
  apply Hacc. right. left. reflexivity.
Defined.

Lemma reset_error_count_resets_witness :
  config init !! "initial_backoff" = Some (VNum 5)
  /\ outcome (reset_error_count (init, quiet_world 0)) = Ok tt.
Proof.
  split; [reflexivity|].
  destruct (reset_error_count_resets init (quiet_world 0) (VNum 5) eq_refl)
    as (H & _).
  exact H.
Defined.

Lemma backoff_state_stays_coherent_witness :
  backoff_state_ok init
  /\ backoff_state_ok
       (self_of (run_op HandleRateLimitError (init, quiet_world 0))).
Proof.
  split; [exact init_backoff_state_ok|].
  exact (backoff_state_stays_coherent HandleRateLimitError init
           (quiet_world 0) init_backoff_state_ok).
Defined.

Lemma backoff_after_k_errors_witness :
  (1 <= 2)%Q /\ (0 < 5 <= 300)%Q
  /\ error_count
       (self_of ((handle_times 3;; get_backoff_time) (init, quiet_world 0)))
     = (error_count init + Z.of_nat 3)%Z.
Proof.
  assert (Hpool : user_agents init <> []) by discriminate.
  assert (H1 : (1 <= 2)%Q) by discriminate.
  assert (H2 : (0 < 5 <= 300)%Q) by (split; [reflexivity|discriminate]).
  split; [exact H1|]. split; [exact H2|].
  destruct (backoff_after_k_errors 3 init (quiet_world 0) 5 300 2
              (VNum 300) (VNum 2) (VBool false)
              eq_refl eq_refl eq_refl eq_refl eq_refl eq_refl Hpool H1 H2)
    as (_ & H & _).
  exact H.
Defined.

Lemma reset_after_errors_witness :
  (1 <= 2)%Q /\ (0 < 5 <= 300)%Q /\ (0 <= error_count init)%Z /\ (0 < 2)%nat
  /\ current_backoff
       (self_of ((handle_times 2;; reset_error_count) (init, quiet_world 0)))
     = VNum 5.
Proof.
  assert (Hpool : user_agents init <> []) by discriminate.
  assert (H1 : (1 <= 2)%Q) by discriminate.
  assert (H2 : (0 < 5 <= 300)%Q) by (split; [reflexivity|discriminate]).
  assert (H3 : (0 <= error_count init)%Z) by (simpl; lia).
  assert (H4 : (0 < 2)%nat) by lia.
  split; [exact H1|]. split; [exact H2|]. split; [exact H3|].
  split; [exact H4|].
  destruct (reset_after_errors 2 init (quiet_world 0) 5 300 2 (VNum 5)
              (VNum 300) (VNum 2) (VBool false)
              eq_refl eq_refl eq_refl eq_refl eq_refl eq_refl eq_refl Hpool
              H1 H2 H3 H4)
    as (_ & H & _).
  exact H.
Defined.

Lemma configure_composes_witness :
  is_Some (config init !! "initial_backoff")
  /\ (configure {["rpm_limit" := VNum 5]};;
      configure {["rpm_limit" := VNum 7]}) (init, quiet_world 0)
     = configure ({["rpm_limit" := VNum 7]} ∪ {["rpm_limit" := VNum 5]})
         (init, quiet_world 0).
Proof.
  assert (H : is_Some (config init !! "initial_backoff")) by (by eexists).
  split; [exact H|].
  destruct (configure_composes init (quiet_world 0)
              {["rpm_limit" := VNum 5]} {["rpm_limit" := VNum 7]} H)
    as (Hc & _).
  exact Hc.
Defined.

Lemma valid_delays_1_3 : (0 <= 1 <= 3)%Q.
Proof. split; discriminate. Qed.

Lemma rpm_step_needs_enough_entries_witness :
  (inject_Z (Z.of_nat (length (request_times init))) < 20)%Q
  /\ sleeps_at RpmWait
       (new_sleeps (quiet_world 1000) (wait_if_needed (init, quiet_world 1000)))
     = [].
Proof.
  assert (H : (inject_Z (Z.of_nat (length (request_times init))) < 20)%Q)
    by reflexivity.
  split; [exact H|].
  destruct (rpm_step_needs_enough_entries init (quiet_world 1000) 20 1 3
              (VNum 20) (VNum 1) (VNum 3)
              eq_refl eq_refl eq_refl eq_refl eq_refl eq_refl
              valid_delays_1_3 (quiet_world_draws 1000) H)
    as (_ & Hs).
  exact Hs.
Defined.

Lemma rpm_step_on_empty_log_witness :
  request_times zero_limit_limiter = []
  /\ (0 <= 0)%Q
  /\ exists d,
       sleeps_at RpmWait
         (new_sleeps (quiet_world 1000)
            (wait_if_needed (zero_limit_limiter, quiet_world 1000))) = [d]
       /\ (d == 1)%Q.
Proof.
  assert (H : (0 <= 0)%Q) by discriminate.
  split; [reflexivity|]. split; [exact H|].
  exact (rpm_step_on_empty_log zero_limit_limiter (quiet_world 1000) 0 1 3
           (VNum 0) (VNum 1) (VNum 3)
           eq_refl eq_refl eq_refl eq_refl eq_refl eq_refl
           valid_delays_1_3 (quiet_world_draws 1000) eq_refl H).
Defined.

Lemma rpm_step_skipped_by_old_entry_witness :
  1000%Q ∈ request_times stale_log_limiter
  /\ (1000 <= clock (quiet_world 1102) - 61)%Q
  /\ sleeps_at RpmWait
       (new_sleeps (quiet_world 1102)
          (wait_if_needed (stale_log_limiter, quiet_world 1102))) = [].
Proof.
  assert (H1 : 1000%Q ∈ request_times stale_log_limiter)
    by apply list_elem_of_here.
  assert (H2 : (1000 <= clock (quiet_world 1102) - 61)%Q) by discriminate.
  split; [exact H1|]. split; [exact H2|].
  destruct (rpm_step_skipped_by_old_entry stale_log_limiter
              (quiet_world 1102) 2 1 3 (VNum 2) (VNum 1) (VNum 3)
              eq_refl eq_refl eq_refl eq_refl eq_refl eq_refl
              valid_delays_1_3 (quiet_world_draws 1102) 1000 H1 H2)
    as (_ & Hs).
  exact Hs.
Defined.

Lemma rpm_step_waits_for_oldest_witness :
  request_times recheck_limiter <> []
  /\ Forall (within_last_minute (clock (quiet_world (201#2))))
       (request_times recheck_limiter)
  /\ (1 <= inject_Z (Z.of_nat (length (request_times recheck_limiter))))%Q
  /\ exists oldest d,
       oldest ∈ request_times recheck_limiter
       /\ (forall t, t ∈ request_times recheck_limiter -> (oldest <= t)%Q)
       /\ sleeps_at RpmWait
            (new_sleeps (quiet_world (201#2))
               (wait_if_needed (recheck_limiter, quiet_world (201#2)))) = [d]
       /\ (d == 61 - (clock (quiet_world (201#2)) - oldest))%Q
       /\ (1 < d)%Q.
Proof.
  assert (H1 : request_times recheck_limiter <> []) by discriminate.
  assert (H2 : Forall (within_last_minute (clock (quiet_world (201#2))))
                 (request_times recheck_limiter)).
  { repeat constructor. }
  assert (H3 : (1 <= inject_Z (Z.of_nat
                                 (length (request_times recheck_limiter))))%Q)
    by discriminate.
  split; [exact H1|]. split; [exact H2|]. split; [exact H3|].
  exact (rpm_step_waits_for_oldest recheck_limiter (quiet_world (201#2))
           1 1 3 (VNum 1) (VNum 1) (VNum 3)
           eq_refl eq_refl eq_refl eq_refl eq_refl eq_refl
           valid_delays_1_3 (quiet_world_draws (201#2)) H1 H2 H3).
Defined.

Lemma wait_if_needed_blocks_at_most_witness :
  (last_request_time init <= clock (quiet_world 1000))%Q
  /\ (total_slept
        (new_sleeps (quiet_world 1000)
           (wait_if_needed (init, quiet_world 1000))) <= 61 + 1 + 3)%Q.
Proof.
  assert (H1 : forall t, head (request_times init) = Some t ->
                         (t <= clock (quiet_world 1000))%Q)
    by (intros t Ht; discriminate Ht).
  assert (H2 : (last_request_time init <= clock (quiet_world 1000))%Q)
    by discriminate.
  split; [exact H2|].
  destruct (wait_if_needed_blocks_at_most init (quiet_world 1000) 20 1 3
              (VNum 20) (VNum 1) (VNum 3)
              eq_refl eq_refl eq_refl eq_refl eq_refl eq_refl
              valid_delays_1_3 (quiet_world_draws 1000) H1 H2)
    as (Hb & _).
  exact Hb.
Defined.

Lemma wait_if_needed_twice_witness :
  (0 < 1)%Q
  /\ exists d,
       sleeps_at MinDelayWait
         (new_sleeps (world_of (wait_if_needed (init, quiet_world 1000)))
            (wait_if_needed
               (self_of (wait_if_needed (init, quiet_world 1000)),
                world_of (wait_if_needed (init, quiet_world 1000))))) = [d]
       /\ (d == 1)%Q.
Proof.
  assert (H : (0 < 1)%Q) by reflexivity.
  split; [exact H|].
  destruct (wait_if_needed_twice init (quiet_world 1000) 20 1 3
              (VNum 20) (VNum 1) (VNum 3)
              eq_refl eq_refl eq_refl eq_refl eq_refl eq_refl
              valid_delays_1_3 (quiet_world_draws 1000) H)
    as (_ & Hd).
  exact Hd.
Defined.

Lemma wait_if_needed_negative_delay_witness :
  (-3 <= -1)%Q /\ (-1 < 0)%Q
  /\ (draws (noisy_world 1000) (cursor (noisy_world 1000)) < 1#5)%Q
  /\ outcome (wait_if_needed (negative_delay_limiter, noisy_world 1000))
     = Raise ValueError.
Proof.
  assert (H1 : (-3 <= -1)%Q) by discriminate.
  assert (H2 : (-1 < 0)%Q) by reflexivity.
  assert (H3 : (draws (noisy_world 1000) (cursor (noisy_world 1000))
                < 1#5)%Q) by reflexivity.
  assert (H4 : (0 <= draws (noisy_world 1000) (S (cursor (noisy_world 1000)))
                < 1)%Q) by (split; [discriminate|reflexivity]).
  split; [exact H1|]. split; [exact H2|]. split; [exact H3|].
  destruct (wait_if_needed_negative_delay negative_delay_limiter
              (noisy_world 1000) 20 (-3) (-1) (VNum 20) (VNum (-3))
              (VNum (-1)) eq_refl eq_refl eq_refl eq_refl eq_refl eq_refl
              H1 H2 H3 H4)
    as (H & _).
  exact H.
Defined.

Lemma handle_rate_limit_error_type_error_witness :
  config text_cap_limiter !! "max_backoff" = Some (VStr "high")
  /\ outcome (handle_rate_limit_error (text_cap_limiter, quiet_world 0))
     = Raise TypeError
  /\ error_count
       (self_of (handle_rate_limit_error (text_cap_limiter, quiet_world 0)))
     = 1%Z.
Proof.
  split; [reflexivity|].
  destruct (handle_rate_limit_error_type_error text_cap_limiter
              (quiet_world 0) 5 (VStr "high") eq_refl eq_refl eq_refl)
    as (Hx & Hs & _).
  split; [exact Hx|]. rewrite Hs. reflexivity.
Defined.

Lemma every_user_agent_comes_up_witness :
  (0 <= current_user_agent_idx init < Z.of_nat (length (user_agents init)))%Z
  /\ "Mozilla/5.0 (X11; Ubuntu; Linux x86_64; rv:89.0) Gecko/20100101 Firefox/89.0"
       ∈ user_agents init
  /\ exists j,
       (j < length (user_agents init))%nat
       /\ outcome ((handle_times j;; get_user_agent) (init, quiet_world 0))
          = Ok "Mozilla/5.0 (X11; Ubuntu; Linux x86_64; rv:89.0) Gecko/20100101 Firefox/89.0".
Proof.
  assert (H1 : (0 <= current_user_agent_idx init
                < Z.of_nat (length (user_agents init)))%Z) by (simpl; lia).
  assert (H2 : "Mozilla/5.0 (X11; Ubuntu; Linux x86_64; rv:89.0) Gecko/20100101 Firefox/89.0"
                 ∈ user_agents init).
  { apply list_elem_of_lookup. exists 9%nat. reflexivity. }
  split; [exact H1|]. split; [exact H2|].
  exact (every_user_agent_comes_up init (quiet_world 0) 5 300 2
           (VNum 300) (VNum 2) (VBool false) _
           eq_refl eq_refl eq_refl eq_refl eq_refl eq_refl H1 H2).
Defined.
